(** * Veo Gallery: the generation workflow and the App state machine

    A shallow embedding of [src/unnamed/part_000] (the [App] component and
    [generateVideoFromText]) and of [src/components/HistoryPage.tsx].

    JavaScript strings are modelled as [string]; each [ascii] stands for one
    UTF-16 code unit below 256.  The remote services (the video SDK, [fetch],
    [FileReader]) are an environment record whose fields give the response of
    each call; the program's own logic is translated step by step. *)

From Stdlib Require Import String Ascii ZArith List Sorting.Permutation Sorting.Sorted.
From stdpp Require Import base list gmap strings pretty.
Import ListNotations.
Open Scope string_scope.

(* ------------------------------------------------------------------ *)
(** ** JavaScript helpers *)

(** [String.prototype.trim]: code units 9..13, 32 and 160 are the
    WhiteSpace/LineTerminator characters below 256. *)
Definition js_is_space (c : ascii) : bool :=
  let n := nat_of_ascii c in
  ((9 <=? n) && (n <=? 13))%nat || (n =? 32)%nat || (n =? 160)%nat.

Fixpoint trim_left (s : string) : string :=
  match s with
  | EmptyString => EmptyString
  | String c s' => if js_is_space c then trim_left s' else s
  end.

Definition string_rev (s : string) : string :=
  string_of_list_ascii (rev (list_ascii_of_string s)).

Definition trim (s : string) : string :=
  string_rev (trim_left (string_rev (trim_left s))).

(** [str.substring(0, n)] *)
Definition substring0 (n : nat) (s : string) : string := String.substring 0 n s.

(** [str.split(',')] *)
Fixpoint split_on (sep : ascii) (s : string) : list string :=
  match s with
  | EmptyString => [EmptyString]
  | String c s' =>
      let parts := split_on sep s' in
      if Ascii.eqb c sep then EmptyString :: parts
      else match parts with
           | p :: ps => String c p :: ps
           | [] => [String c EmptyString]
           end
  end.

(** A value of type [string | undefined] interpolated in a template
    literal. *)
Definition js_str (o : option string) : string :=
  match o with Some s => s | None => "undefined" end.

(* ------------------------------------------------------------------ *)
(** ** Data model ([src/types.ts], [@google/genai] responses) *)

Record Video := mkVideo {
  id : string;
  videoUrl : string;
  title : string;
  description : string
}.

(** [HistoryVideo extends Video] with [createdAt : Date]; a date is its
    [getTime()] value. *)
Record HistoryVideo := mkHistoryVideo {
  hv_video : Video;
  createdAt : Z
}.

(** [generatedVideo.video.uri]; [None] when [video] is missing. *)
Record GeneratedVideo := mkGeneratedVideo { gv_uri : option string }.

Record VideosResponse := mkVideosResponse {
  generatedVideos : option (list GeneratedVideo)
}.

Record Operation := mkOperation {
  done : bool;
  response : option VideosResponse
}.

Record GenerateVideosParameters := mkParams {
  p_model : string;
  p_prompt : string;
  p_numberOfVideos : nat;
  p_aspectRatio : string
}.

Record FetchResponse := mkFetchResponse {
  ok : bool;
  status : Z;
  statusText : string;
  res_blob : string
}.

(** A settled promise: resolved ([Ok]) or rejected ([Err]). *)
Inductive result (A : Type) :=
| Ok (a : A)
| Err (e : string).
Arguments Ok {A} a.
Arguments Err {A} e.

(** The outside world: the response of each external call. *)
Record Env := mkEnv {
  env_generateVideos : GenerateVideosParameters -> result Operation;
  env_getVideosOperation : nat -> result Operation;  (** the i-th poll *)
  env_decodeURIComponent : string -> result string;
  env_fetch : string -> result FetchResponse;
  env_readAsDataURL : string -> string
}.

(** Observable calls made to the outside world, in order. *)
Inductive Event :=
| EGenerateVideos (p : GenerateVideosParameters)
| ESleep (ms : Z)
| EGetVideosOperation (op : Operation)
| EFetch (url : string).

(* ------------------------------------------------------------------ *)
(** ** [generateVideoFromText] *)

Definition VEO_MODEL_NAME := "veo-2.0-generate-001".

(** The polling loop
    [while (!operation.done) { await sleep(10000); operation = await
    ai.operations.getVideosOperation({operation}); }].
    [i] counts the polls made so far; [None] means the loop is still
    running when [fuel] is exhausted. *)
Fixpoint poll_loop (fuel : nat) (env : Env) (i : nat) (op : Operation)
  : option (list Event * nat * result Operation) :=
  if done op then Some ([], i, Ok op) else
  match fuel with
  | O => None
  | S f =>
      let ev := [ESleep 10000; EGetVideosOperation op] in
      match env_getVideosOperation env i with
      | Err e => Some (ev, S i, Err e)
      | Ok op' =>
          match poll_loop f env (S i) op' with
          | None => None
          | Some (t, n, r) => Some ((ev ++ t)%list, n, r)
          end
      end
  end.

(** [bloblToBase64]: [reader.result.split(',')[1]]. *)
Definition bloblToBase64 (env : Env) (blob : string) : option string :=
  nth_error (split_on "," (env_readAsDataURL env blob)) 1.

Definition download_url (apiKey : option string) (url : string) : string :=
  url ++ "&key=" ++ js_str apiKey.

(** The body of the [videos.map(async ...)] callback.  The event list holds
    the [fetch] call when it is made. *)
Definition fetch_one (env : Env) (apiKey : option string) (gv : GeneratedVideo)
  : list Event * result (option string) :=
  match gv_uri gv with
  | None => ([], Err "TypeError: Cannot read properties of undefined")
  | Some uri =>
      match env_decodeURIComponent env uri with
      | Err e => ([], Err e)
      | Ok url =>
          let full := download_url apiKey url in
          ([EFetch full],
           match env_fetch env full with
           | Err e => Err e
           | Ok res =>
               if ok res then Ok (bloblToBase64 env (res_blob res))
               else Err ("Failed to fetch video: " ++ pretty (status res)
                           ++ " " ++ statusText res)
           end)
      end
  end.

(** [Promise.all(videos.map(...))]: every callback runs up to its [fetch]
    before any result is awaited; the combined promise rejects when one
    callback rejects (the error reported is the first in list order). *)
Fixpoint promise_all (rs : list (result (option string)))
  : result (list (option string)) :=
  match rs with
  | [] => Ok []
  | Err e :: _ => Err e
  | Ok a :: rs' =>
      match promise_all rs' with
      | Err e => Err e
      | Ok l => Ok (a :: l)
      end
  end.

Definition fetch_all (env : Env) (apiKey : option string)
  (videos : list GeneratedVideo) : list Event * result (list (option string)) :=
  let rs := map (fetch_one env apiKey) videos in
  (concat (map fst rs), promise_all (map snd rs)).

Definition generate_params (prompt : string) (numberOfVideos : nat) :=
  mkParams VEO_MODEL_NAME prompt numberOfVideos "16:9".

Definition generateVideoFromText (fuel : nat) (env : Env) (apiKey : option string)
  (prompt : string) (numberOfVideos : nat)
  : option (list Event * result (list (option string))) :=
  let p := generate_params prompt numberOfVideos in
  let ev0 := [EGenerateVideos p] in
  match env_generateVideos env p with
  | Err e => Some (ev0, Err e)
  | Ok op0 =>
      match poll_loop fuel env 0 op0 with
      | None => None
      | Some (t, _, Err e) => Some ((ev0 ++ t)%list, Err e)
      | Some (t, _, Ok op) =>
          match response op with
          | None => Some ((ev0 ++ t)%list, Err "No videos generated")
          | Some resp =>
              match generatedVideos resp with
              | None | Some [] => Some ((ev0 ++ t)%list, Err "No videos generated")
              | Some vs =>
                  let '(t', r) := fetch_all env apiKey vs in
                  Some ((ev0 ++ t ++ t')%list, r)
              end
          end
      end
  end.

(** [const ai = new GoogleGenAI({apiKey: process.env.API_KEY})] *)
Record GoogleGenAI := mkGoogleGenAI { client_apiKey : option string }.

Definition ai (API_KEY : option string) : GoogleGenAI := mkGoogleGenAI API_KEY.

(* ------------------------------------------------------------------ *)
(** ** The [App] component's state *)

Inductive View := gallery | history.

Record AppState := mkApp {
  videos : list Video;
  playingVideo : option Video;
  editingVideo : option Video;
  isSaving : bool;
  savingMessage : string;
  generationError : option (list string);
  view : View;
  generatedVideosHistory : list HistoryVideo;
  newVideoPrompt : string;
  loadingVideoId : option string;
  isPlaying : bool
}.

(** The React state setters. *)
Definition setVideos (f : list Video -> list Video) (s : AppState) :=
  mkApp (f (videos s)) (playingVideo s) (editingVideo s) (isSaving s)
    (savingMessage s) (generationError s) (view s) (generatedVideosHistory s)
    (newVideoPrompt s) (loadingVideoId s) (isPlaying s).
Definition setPlayingVideo (v : option Video) (s : AppState) :=
  mkApp (videos s) v (editingVideo s) (isSaving s)
    (savingMessage s) (generationError s) (view s) (generatedVideosHistory s)
    (newVideoPrompt s) (loadingVideoId s) (isPlaying s).
Definition setEditingVideo (v : option Video) (s : AppState) :=
  mkApp (videos s) (playingVideo s) v (isSaving s)
    (savingMessage s) (generationError s) (view s) (generatedVideosHistory s)
    (newVideoPrompt s) (loadingVideoId s) (isPlaying s).
Definition setIsSaving (b : bool) (s : AppState) :=
  mkApp (videos s) (playingVideo s) (editingVideo s) b
    (savingMessage s) (generationError s) (view s) (generatedVideosHistory s)
    (newVideoPrompt s) (loadingVideoId s) (isPlaying s).
Definition setSavingMessage (m : string) (s : AppState) :=
  mkApp (videos s) (playingVideo s) (editingVideo s) (isSaving s)
    m (generationError s) (view s) (generatedVideosHistory s)
    (newVideoPrompt s) (loadingVideoId s) (isPlaying s).
Definition setGenerationError (e : option (list string)) (s : AppState) :=
  mkApp (videos s) (playingVideo s) (editingVideo s) (isSaving s)
    (savingMessage s) e (view s) (generatedVideosHistory s)
    (newVideoPrompt s) (loadingVideoId s) (isPlaying s).
Definition setView (w : View) (s : AppState) :=
  mkApp (videos s) (playingVideo s) (editingVideo s) (isSaving s)
    (savingMessage s) (generationError s) w (generatedVideosHistory s)
    (newVideoPrompt s) (loadingVideoId s) (isPlaying s).
Definition setGeneratedVideosHistory (f : list HistoryVideo -> list HistoryVideo)
  (s : AppState) :=
  mkApp (videos s) (playingVideo s) (editingVideo s) (isSaving s)
    (savingMessage s) (generationError s) (view s) (f (generatedVideosHistory s))
    (newVideoPrompt s) (loadingVideoId s) (isPlaying s).
Definition setNewVideoPrompt (p : string) (s : AppState) :=
  mkApp (videos s) (playingVideo s) (editingVideo s) (isSaving s)
    (savingMessage s) (generationError s) (view s) (generatedVideosHistory s)
    p (loadingVideoId s) (isPlaying s).
Definition setLoadingVideoId (o : option string) (s : AppState) :=
  mkApp (videos s) (playingVideo s) (editingVideo s) (isSaving s)
    (savingMessage s) (generationError s) (view s) (generatedVideosHistory s)
    (newVideoPrompt s) o (isPlaying s).
Definition setIsPlaying (b : bool) (s : AppState) :=
  mkApp (videos s) (playingVideo s) (editingVideo s) (isSaving s)
    (savingMessage s) (generationError s) (view s) (generatedVideosHistory s)
    (newVideoPrompt s) (loadingVideoId s) b.

(** The initial state of a page load; [MOCK_VIDEOS] comes from
    [./constants]. *)
Definition initialApp (MOCK_VIDEOS : list Video) : AppState :=
  mkApp MOCK_VIDEOS None None false EmptyString None gallery [] EmptyString None false.

(* ------------------------------------------------------------------ *)
(** ** The synchronous handlers *)

Definition handlePlayVideo (video : Video) (s : AppState) : AppState :=
  setIsPlaying true (setPlayingVideo (Some video)
    (setLoadingVideoId (Some (id video)) s)).

Definition handleClosePlayer (s : AppState) : AppState :=
  setIsPlaying false (setLoadingVideoId None (setPlayingVideo None s)).

Definition handleVideoLoaded (s : AppState) : AppState :=
  setLoadingVideoId None s.

Definition handleStartEdit (video : Video) (s : AppState) : AppState :=
  setEditingVideo (Some video) (setLoadingVideoId None
    (setIsPlaying false (setPlayingVideo None s))).

Definition handleCancelEdit (s : AppState) : AppState :=
  setEditingVideo None s.

(* ------------------------------------------------------------------ *)
(** ** The asynchronous handlers

    Each handler runs synchronously up to [await generateVideoFromText(...)]
    ([..._start]); the rest runs when that promise settles
    ([..._complete]), with the [crypto.randomUUID()] and [new Date()] values
    of that moment. *)

Definition error_message : list string :=
  ["Video generation failed.";
   "This may be due to an invalid API key or network issues."].

(** [catch (error) { setGenerationError([...]) }] *)
Definition catch_phase (s : AppState) : AppState :=
  setGenerationError (Some error_message) s.

(** [finally { setIsSaving(false) }] *)
Definition finally_phase (s : AppState) : AppState := setIsSaving false s.

Definition mimeType := "video/mp4".

(** The double-quote character. *)
Definition dq : string := String (ascii_of_nat 34) EmptyString.

Definition data_src (videoSrc : option string) : string :=
  "data:" ++ mimeType ++ ";base64," ++ js_str videoSrc.

(** The state updates after a video was built. *)
Definition add_video (newVideo : Video) (now : Z) (s : AppState) : AppState :=
  let newHistoryVideo := mkHistoryVideo newVideo now in
  setGeneratedVideosHistory (fun currentHistory => newHistoryVideo :: currentHistory)
    (setVideos (fun currentVideos => newVideo :: currentVideos) s).

Definition handleSaveEdit_start (originalVideo : Video) (s : AppState) : AppState :=
  setGenerationError None (setIsSaving true
    (setSavingMessage "Creating your remix..." (setEditingVideo None s))).

Definition handleSaveEdit_complete (originalVideo : Video)
  (r : result (list (option string))) (uuid : string) (now : Z) (s : AppState)
  : AppState :=
  finally_phase
    match r with
    | Err _ => catch_phase s
    | Ok [] => catch_phase s
    | Ok (videoSrc :: _) =>
        let newVideo :=
          mkVideo uuid (data_src videoSrc)
            ("Remix of " ++ dq ++ title originalVideo ++ dq)
            (description originalVideo) in
        setIsPlaying true (setPlayingVideo (Some newVideo)
          (setView history (add_video newVideo now s)))
    end.

(** [if (!newVideoPrompt.trim()) return;] then the synchronous part;
    [None] is the early return.  The prompt sent is [newVideoPrompt.trim()]. *)
Definition handleGenerateNewVideo_start (s : AppState) : option (AppState * string) :=
  if String.eqb (trim (newVideoPrompt s)) EmptyString then None
  else Some (setGenerationError None (setIsSaving true
              (setSavingMessage "Generating your video..." s)),
             trim (newVideoPrompt s)).

Definition generated_title (promptText : string) : string :=
  "Generated: " ++ dq ++ substring0 40 promptText
    ++ (if (40 <? String.length promptText)%nat then "..." else EmptyString) ++ dq.

Definition handleGenerateNewVideo_complete (promptText : string)
  (r : result (list (option string))) (uuid : string) (now : Z) (s : AppState)
  : AppState :=
  finally_phase
    match r with
    | Err _ => catch_phase s
    | Ok [] => catch_phase s
    | Ok (videoSrc :: _) =>
        let newVideo :=
          mkVideo uuid (data_src videoSrc) (generated_title promptText)
            promptText in
        setIsPlaying true (setPlayingVideo (Some newVideo)
          (setView history (setNewVideoPrompt EmptyString
            (add_video newVideo now s))))
    end.

(** A whole click of the remix [onSave]: the synchronous part, the call, and
    its continuation.  While the promise is pending the App renders only
    [SavingProgressPage], so no other handler runs in between (see
    [available] below).  [None]: the polling loop has not finished within
    [fuel] polls. *)
Definition handleSaveEdit_run (fuel : nat) (env : Env) (API_KEY : option string)
  (uuid : string) (now : Z) (originalVideo : Video) (s : AppState)
  : option (list Event * AppState) :=
  let s1 := handleSaveEdit_start originalVideo s in
  match generateVideoFromText fuel env API_KEY (description originalVideo) 1 with
  | None => None
  | Some (t, r) => Some (t, handleSaveEdit_complete originalVideo r uuid now s1)
  end.

Definition handleGenerateNewVideo_run (fuel : nat) (env : Env)
  (API_KEY : option string) (uuid : string) (now : Z) (s : AppState)
  : option (list Event * AppState) :=
  match handleGenerateNewVideo_start s with
  | None => Some ([], s)
  | Some (s1, promptText) =>
      match generateVideoFromText fuel env API_KEY promptText 1 with
      | None => None
      | Some (t, r) =>
          Some (t, handleGenerateNewVideo_complete promptText r uuid now s1)
      end
  end.

(* ------------------------------------------------------------------ *)
(** ** Rendering and the UI events it offers *)

(** [disabled={!newVideoPrompt.trim() || isSaving}] *)
Definition generate_button_disabled (s : AppState) : bool :=
  String.eqb (trim (newVideoPrompt s)) EmptyString || isSaving s.

(** The player overlay: [{isPlaying && playingVideo && <VideoPlayer/>}]. *)
Definition player_shown (s : AppState) : option Video :=
  if isPlaying s then playingVideo s else None.

Inductive Screen :=
| SavingProgressPage (message : string)
| EditScreen (v : Video) (player : option Video) (err : option (list string))
| MainScreen (generateDisabled : bool) (w : View) (player : option Video)
    (err : option (list string)).

Definition render (s : AppState) : Screen :=
  if isSaving s then SavingProgressPage (savingMessage s) else
  match editingVideo s with
  | Some v => EditScreen v (player_shown s) (generationError s)
  | None => MainScreen (generate_button_disabled s) (view s) (player_shown s)
              (generationError s)
  end.

(** The user actions: every callback passed to a rendered component. *)
Inductive Action :=
| PlayVideo (v : Video)           (** VideoGrid / HistoryCard [onPlay] *)
| ClosePlayer                     (** VideoPlayer [onClose], [onEnded] *)
| VideoLoaded                     (** VideoPlayer [onCanPlay] *)
| StartEdit (v : Video)           (** VideoPlayer [onEdit(video)] *)
| PlayerDownload                  (** VideoPlayer [handleDownload] *)
| PlayerShare                     (** VideoPlayer / HistoryCard [handleShare] *)
| CancelEdit                      (** EditVideoPage [onCancel] *)
| SaveEdit (v : Video)            (** EditVideoPage [onSave(video)] *)
| GenerateNew                     (** the Generate Video button *)
| SetPrompt (p : string)          (** the textarea [onChange] *)
| SetViewTo (w : View)            (** the Gallery / History nav buttons *)
| CloseError.                     (** ErrorModal [onClose] *)

Definition list_videos_shown (s : AppState) : list Video :=
  match view s with
  | gallery => videos s
  | history => map hv_video (generatedVideosHistory s)
  end.

Definition video_eqb (a b : Video) : bool :=
  String.eqb (id a) (id b) && String.eqb (videoUrl a) (videoUrl b)
  && String.eqb (title a) (title b) && String.eqb (description a) (description b).

Definition player_is (s : AppState) : bool :=
  match player_shown s with Some _ => true | None => false end.

(** Whether the rendered screen offers the action. *)
Definition available (s : AppState) (a : Action) : bool :=
  match render s with
  | SavingProgressPage _ => false
  | EditScreen v pl err =>
      match a with
      | CancelEdit | SaveEdit _ => true
      | ClosePlayer | VideoLoaded | PlayerDownload => player_is s
      | PlayerShare => player_is s
      | StartEdit v' =>
          match pl with Some p => video_eqb p v' | None => false end
      | CloseError => match err with Some _ => true | None => false end
      | _ => false
      end
  | MainScreen disabled w pl err =>
      match a with
      | PlayVideo v => existsb (video_eqb v) (list_videos_shown s)
      | ClosePlayer | VideoLoaded | PlayerDownload => player_is s
      | PlayerShare => player_is s || (match w with history => true | gallery => false end)
      | StartEdit v' =>
          match pl with Some p => video_eqb p v' | None => false end
      | GenerateNew => negb disabled
      | SetPrompt _ | SetViewTo _ => true
      | CloseError => match err with Some _ => true | None => false end
      | CancelEdit | SaveEdit _ => false
      end
  end.

(* ------------------------------------------------------------------ *)
(** ** The page as a transition system

    A world is the App state, the generation requests whose promise has not
    settled, and the browser's persistent storage ([localStorage] and the
    like, as a key/value map). *)

Inductive Pending :=
| PSaveEdit (originalVideo : Video)
| PGenerateNew (promptText : string).

Record World := mkWorld {
  app : AppState;
  inflight : list Pending;
  storage : gmap string string
}.

(** A page load: the App starts from its [useState] initial values,
    whatever the storage holds. *)
Definition load (MOCK_VIDEOS : list Video) (st : gmap string string) : World :=
  mkWorld (initialApp MOCK_VIDEOS) [] st.

(** Running a handler.  [PlayerDownload] clicks a temporary [<a download>]
    and [PlayerShare] calls [navigator.share] or the clipboard: both act
    on the component's local feedback text only, not on the App state or the
    storage. *)
Definition dispatch (a : Action) (w : World) : World :=
  let s := app w in
  match a with
  | PlayVideo v => mkWorld (handlePlayVideo v s) (inflight w) (storage w)
  | ClosePlayer => mkWorld (handleClosePlayer s) (inflight w) (storage w)
  | VideoLoaded => mkWorld (handleVideoLoaded s) (inflight w) (storage w)
  | StartEdit v => mkWorld (handleStartEdit v s) (inflight w) (storage w)
  | PlayerDownload | PlayerShare => w
  | CancelEdit => mkWorld (handleCancelEdit s) (inflight w) (storage w)
  | SaveEdit v =>
      mkWorld (handleSaveEdit_start v s) (PSaveEdit v :: inflight w) (storage w)
  | GenerateNew =>
      match handleGenerateNewVideo_start s with
      | None => w
      | Some (s1, p) => mkWorld s1 (PGenerateNew p :: inflight w) (storage w)
      end
  | SetPrompt p => mkWorld (setNewVideoPrompt p s) (inflight w) (storage w)
  | SetViewTo v => mkWorld (setView v s) (inflight w) (storage w)
  | CloseError => mkWorld (setGenerationError None s) (inflight w) (storage w)
  end.

Definition complete (p : Pending) (r : result (list (option string)))
  (uuid : string) (now : Z) (s : AppState) : AppState :=
  match p with
  | PSaveEdit v => handleSaveEdit_complete v r uuid now s
  | PGenerateNew t => handleGenerateNewVideo_complete t r uuid now s
  end.

Inductive step : World -> World -> Prop :=
| step_user (w : World) (a : Action) :
    available (app w) a = true -> step w (dispatch a w)
| step_settle (w : World) (before after : list Pending) (p : Pending)
    (r : result (list (option string))) (uuid : string) (now : Z) :
    inflight w = (before ++ p :: after)%list ->
    step w (mkWorld (complete p r uuid now (app w)) (before ++ after)%list (storage w)).

Inductive reachable (MOCK_VIDEOS : list Video) (st : gmap string string)
  : World -> Prop :=
| reach_load : reachable MOCK_VIDEOS st (load MOCK_VIDEOS st)
| reach_step (w w' : World) :
    reachable MOCK_VIDEOS st w -> step w w' -> reachable MOCK_VIDEOS st w'.

(* ------------------------------------------------------------------ *)
(** ** [HistoryPage] ([src/components/HistoryPage.tsx])

    Arrays live in a heap of JavaScript array objects, so that the copy
    [[...videos]] and the in-place [sort] are explicit. *)

Abbreviation Heap := (gmap N (list HistoryVideo)).

(** [(a, b) => b.createdAt.getTime() - a.createdAt.getTime()] *)
Definition compareCreatedAt (a b : HistoryVideo) : Z := createdAt b - createdAt a.

(** [Array.prototype.sort] with a comparator: the sort is stable (ES2019),
    so for a consistent comparator its result is the one of this stable
    insertion sort. *)
Fixpoint insert_by (cmp : HistoryVideo -> HistoryVideo -> Z) (x : HistoryVideo)
  (l : list HistoryVideo) : list HistoryVideo :=
  match l with
  | [] => [x]
  | y :: l' => if (cmp x y <? 0)%Z then x :: l else y :: insert_by cmp x l'
  end.

Definition array_sort (cmp : HistoryVideo -> HistoryVideo -> Z)
  (l : list HistoryVideo) : list HistoryVideo :=
  fold_left (fun acc x => insert_by cmp x acc) l [].

(** [<HistoryCard key={video.id} video={video} isLoading={...} />] *)
Record HistoryCardProps := mkHistoryCardProps {
  card_key : string;
  card_video : HistoryVideo;
  card_isLoading : bool
}.

Inductive HistoryRender :=
| NoVideosGeneratedYet
| HistoryCards (cards : list HistoryCardProps).

Definition opt_string_eqb (o : option string) (s : string) : bool :=
  match o with Some t => String.eqb t s | None => false end.

(** The component applied to the array at [videos]; the heap after the
    render is returned with the output.  [None]: [videos] is not an
    allocated array. *)
Definition HistoryPage (h : Heap) (videos : N) (loadingVideoId : option string)
  : option (Heap * HistoryRender) :=
  match h !! videos with
  | None => None
  | Some vs =>
      if (length vs =? 0)%nat then Some (h, NoVideosGeneratedYet) else
      (* const sortedVideos = [...videos].sort(...) *)
      let sortedVideos : N := fresh (dom h) in
      let h1 := <[sortedVideos := vs]> h in
      let h2 := <[sortedVideos := array_sort compareCreatedAt vs]> h1 in
      match h2 !! sortedVideos with
      | None => None
      | Some sv =>
          Some (h2, HistoryCards
                      (map (fun video => mkHistoryCardProps (id (hv_video video))
                               video (opt_string_eqb loadingVideoId (id (hv_video video))))
                           sv))
      end
  end.

(* ------------------------------------------------------------------ *)
(** ** Concrete runs *)

Definition op_pending : Operation := mkOperation false None.

Definition op_finished (uri : string) : Operation :=
  mkOperation true (Some (mkVideosResponse (Some [mkGeneratedVideo (Some uri)]))).

(** A service that finishes after [k] polls and serves every download. *)
Definition sample_env (k : nat) : Env :=
  mkEnv (fun _ => Ok op_pending)
        (fun i => if (i <? k)%nat then Ok op_pending else Ok (op_finished "https://v/1?alt=media"))
        (fun u => Ok u)
        (fun _ => Ok (mkFetchResponse true 200 "OK" "BLOB"))
        (fun b => "data:video/mp4;base64," ++ b).

(** A service whose job never finishes. *)
Definition never_done_env : Env :=
  mkEnv (fun _ => Ok op_pending) (fun _ => Ok op_pending) (fun u => Ok u)
        (fun _ => Ok (mkFetchResponse true 200 "OK" "BLOB"))
        (fun b => "data:video/mp4;base64," ++ b).

(** A service that rejects the job creation. *)
Definition failing_env : Env :=
  mkEnv (fun _ => Err "403 PERMISSION_DENIED") (fun _ => Ok op_pending) (fun u => Ok u)
        (fun _ => Ok (mkFetchResponse true 200 "OK" "BLOB"))
        (fun b => "data:video/mp4;base64," ++ b).

Example trim_example : trim "  a cat 	" = "a cat".
Proof. reflexivity. Qed.

Example generate_example :
  generateVideoFromText 5 (sample_env 2) (Some "K") "a cat" 1 =
  Some ([EGenerateVideos (generate_params "a cat" 1);
         ESleep 10000; EGetVideosOperation op_pending;
         ESleep 10000; EGetVideosOperation op_pending;
         ESleep 10000; EGetVideosOperation op_pending;
         EFetch "https://v/1?alt=media&key=K"], Ok [Some "BLOB"]).
Proof. reflexivity. Qed.

Example generate_out_of_fuel :
  generateVideoFromText 2 (sample_env 2) (Some "K") "a cat" 1 = None.
Proof. reflexivity. Qed.

Example new_video_example :
  option_map (fun '(_, s) => (map title (videos s), view s, isSaving s, newVideoPrompt s))
    (handleGenerateNewVideo_run 5 (sample_env 0) None "u1" 7
       (setNewVideoPrompt " a cat " (initialApp []))) =
  Some (["Generated: " ++ dq ++ "a cat" ++ dq], history, false, EmptyString).
Proof. reflexivity. Qed.

Example history_page_example :
  let a := mkHistoryVideo (mkVideo "a" "ua" "A" "da") 1 in
  let b := mkHistoryVideo (mkVideo "b" "ub" "B" "db") 3 in
  let c := mkHistoryVideo (mkVideo "c" "uc" "C" "dc") 2 in
  option_map (fun '(h, r) => (h !! 0%N, r))
    (HistoryPage (<[0%N := [a; b; c]]> ∅) 0%N None) =
  Some (Some [a; b; c],
        HistoryCards [mkHistoryCardProps "b" b false; mkHistoryCardProps "c" c false;
                      mkHistoryCardProps "a" a false]).
Proof. reflexivity. Qed.

(* ------------------------------------------------------------------ *)
(** ** The polling loop *)

(** The operation the loop holds after [k] polls: the initial one, then
    the successive responses of [getVideosOperation]. *)
Definition poll_status (env : Env) (i : nat) (op : Operation) (k : nat)
  : result Operation :=
  match k with
  | O => Ok op
  | S k' => env_getVideosOperation env (i + k')
  end.

(** The loop leaves after a done operation or a rejected poll. *)
Definition stops (r : result Operation) : bool :=
  match r with Ok o => done o | Err _ => true end.

Definition op_at (env : Env) (i : nat) (op : Operation) (j : nat) : Operation :=
  match poll_status env i op j with Ok o => o | Err _ => mkOperation false None end.

(** [k] rounds of [await sleep(10000)] and [getVideosOperation]. *)
Definition poll_trace (env : Env) (i : nat) (op : Operation) (k : nat) : list Event :=
  concat (map (fun j => [ESleep 10000; EGetVideosOperation (op_at env i op j)]) (seq 0 k)).

Lemma poll_status_shift env i op op' j :
  env_getVideosOperation env i = Ok op' ->
  poll_status env (S i) op' j = poll_status env i op (S j).
Proof.
  intros H. destruct j as [|j]; simpl.
  - rewrite Nat.add_0_r. by rewrite H.
  - by rewrite Nat.add_succ_r.
Qed.

Lemma poll_trace_S env i op op' k :
  done op = false ->
  env_getVideosOperation env i = Ok op' ->
  poll_trace env i op (S k) =
  ([ESleep 10000; EGetVideosOperation op] ++ poll_trace env (S i) op' k)%list.
Proof.
  intros Hd H. unfold poll_trace. cbn [seq]. rewrite <- seq_shift.
  cbn [map concat]. rewrite map_map.
  assert (E : forall j, op_at env i op (S j) = op_at env (S i) op' j).
  { intros j. unfold op_at. by rewrite (poll_status_shift env i op op' j H). }
  setoid_rewrite E. reflexivity.
Qed.

(** What a finished loop did: it stopped at the first status that stops
    the [while], after one sleep and one poll per earlier status. *)
Lemma poll_loop_spec fuel env i op t n r :
  poll_loop fuel env i op = Some (t, n, r) ->
  exists k, n = i + k /\ stops (poll_status env i op k) = true /\
    (forall j, j < k -> stops (poll_status env i op j) = false) /\
    r = poll_status env i op k /\ t = poll_trace env i op k.
Proof.
  revert i op t n r. induction fuel as [|f IH]; intros i op t n r Hrun; simpl in Hrun.
  - destruct (done op) eqn:Hd; [|discriminate].
    injection Hrun as <- <- <-. exists 0. rewrite Nat.add_0_r.
    repeat split; simpl; auto. intros j Hj. lia.
  - destruct (done op) eqn:Hd.
    + injection Hrun as <- <- <-. exists 0. rewrite Nat.add_0_r.
      repeat split; simpl; auto. intros j Hj. lia.
    + destruct (env_getVideosOperation env i) as [op'|e] eqn:Hp.
      * destruct (poll_loop f env (S i) op') as [[[t' n'] r']|] eqn:Hr; [|discriminate].
        injection Hrun as <- <- <-.
        destruct (IH _ _ _ _ _ Hr) as (k & -> & Hs & Hlt & -> & ->).
        exists (S k). rewrite (poll_status_shift env i op op' k Hp) in Hs |- *.
        split; [lia|]. split; [exact Hs|]. split; [|split; [reflexivity|]].
        -- intros [|j] Hj; [simpl; exact Hd|].
           rewrite <- (poll_status_shift env i op op' j Hp). apply Hlt. lia.
        -- by rewrite (poll_trace_S env i op op' k Hd Hp).
      * injection Hrun as <- <- <-. exists 1.
        simpl. rewrite Nat.add_0_r, Hp.
        split; [lia|]. split; [reflexivity|]. split; [|split; [reflexivity|]].
        -- intros j Hj. assert (j = 0) as -> by lia. simpl. exact Hd.
        -- unfold poll_trace, op_at. simpl. reflexivity.
Qed.

(** The converse: a status that stops the loop is reached with enough
    fuel. *)
Lemma poll_loop_reaches env k : forall i op,
  stops (poll_status env i op k) = true ->
  exists t n r, poll_loop k env i op = Some (t, n, r).
Proof.
  induction k as [|k IH]; intros i op Hs; simpl in *.
  - rewrite Hs. eauto.
  - destruct (done op); [eauto|].
    destruct (env_getVideosOperation env i) as [op'|e] eqn:Hp; [|eauto].
    assert (Hs' : stops (poll_status env (S i) op' k) = true).
    { rewrite (poll_status_shift env i op op' k Hp). simpl. exact Hs. }
    destruct (IH _ _ Hs') as (t & n & r & ->). eauto.
Qed.

Lemma poll_loop_never_done fuel : forall i,
  poll_loop fuel never_done_env i op_pending = None.
Proof. induction fuel as [|f IH]; intros i; simpl; [done|]. by rewrite IH. Qed.

(** ** Claim C2: the polling loop *)

Lemma generate_never_done fuel prompt API_KEY :
  generateVideoFromText fuel never_done_env API_KEY prompt 1 = None.
Proof. unfold generateVideoFromText. simpl. by rewrite poll_loop_never_done. Qed.

(** C2 (as stated, refuted): a bound [B] such that every polling loop of
    [generateVideoFromText] ends within [B] polls does not exist: when the
    job never reports done, the loop polls forever. *)
Lemma C2_unbounded_polling :
  (forall fuel, generateVideoFromText fuel never_done_env None "a cat" 1 = None) /\
  ~ (exists B, forall env prompt,
        generateVideoFromText B env None prompt 1 <> None).
Proof.
  split.
  - intros fuel. apply generate_never_done.
  - intros [B HB]. apply (HB never_done_env "a cat"). apply generate_never_done.
Qed.

(** C2 (amended): the loop has no bound of its own.  It ends exactly when
    some status (the initial operation, then each [getVideosOperation]
    response) is done or rejected; it then stops at the first such status
    [n], after [n] rounds of one 10 s sleep and one poll, and returns that
    status: a rejected poll is returned, not retried. *)
Theorem C2_polling_until_first_stop (env : Env) (op : Operation) :
  ((exists fuel t n r, poll_loop fuel env 0 op = Some (t, n, r)) <->
   (exists k, stops (poll_status env 0 op k) = true)) /\
  (forall fuel t n r, poll_loop fuel env 0 op = Some (t, n, r) ->
     stops (poll_status env 0 op n) = true /\
     (forall j, j < n -> stops (poll_status env 0 op j) = false) /\
     r = poll_status env 0 op n /\ t = poll_trace env 0 op n).
Proof.
  split.
  - split.
    + intros (fuel & t & n & r & Hrun).
      destruct (poll_loop_spec _ _ _ _ _ _ _ Hrun) as (k & _ & Hs & _). eauto.
    + intros (k & Hs). destruct (poll_loop_reaches env k 0 op Hs) as (t & n & r & H).
      eauto 6.
  - intros fuel t n r Hrun.
    destruct (poll_loop_spec _ _ _ _ _ _ _ Hrun) as (k & -> & Hs & Hlt & Hr & Ht).
    simpl. auto.
Qed.

(* ------------------------------------------------------------------ *)
(** ** Claim C1: the request / poll / download / update workflow *)

(** The download of one generated video succeeded, with [full] the URL
    fetched and [res] the response. *)
Definition fetched_from (env : Env) (API_KEY : option string)
  (gv : GeneratedVideo) (f : string * FetchResponse) : Prop :=
  exists u url, gv_uri gv = Some u /\ env_decodeURIComponent env u = Ok url /\
    fst f = download_url API_KEY url /\ env_fetch env (fst f) = Ok (snd f) /\
    ok (snd f) = true.

Lemma fetch_one_ok env API_KEY gv t a :
  fetch_one env API_KEY gv = (t, Ok a) ->
  exists f, fetched_from env API_KEY gv f /\ t = [EFetch (fst f)] /\
    a = bloblToBase64 env (res_blob (snd f)).
Proof.
  unfold fetch_one. destruct (gv_uri gv) as [u|] eqn:Hu; [|discriminate].
  destruct (env_decodeURIComponent env u) as [url|e] eqn:Hd; [|discriminate].
  destruct (env_fetch env (download_url API_KEY url)) as [res|e] eqn:Hf;
    [|discriminate].
  destruct (ok res) eqn:Hok; [|discriminate].
  intros [= <- <-]. exists (download_url API_KEY url, res).
  split; [|done]. exists u, url. done.
Qed.

Lemma fetch_all_ok env API_KEY gvs : forall t vs,
  fetch_all env API_KEY gvs = (t, Ok vs) ->
  exists fetched, Forall2 (fetched_from env API_KEY) gvs fetched /\
    t = map (fun f => EFetch (fst f)) fetched /\
    vs = map (fun f => bloblToBase64 env (res_blob (snd f))) fetched.
Proof.
  induction gvs as [|gv gvs IH]; intros t vs H; unfold fetch_all in H; simpl in H.
  - injection H as <- <-. exists []. done.
  - destruct (fetch_one env API_KEY gv) as [t1 r1] eqn:H1. simpl in H.
    destruct r1 as [a|e]; [|discriminate].
    destruct (promise_all (map snd (map (fetch_one env API_KEY) gvs))) as [l|e] eqn:Hl;
      [|discriminate].
    injection H as <- <-.
    destruct (fetch_one_ok _ _ _ _ _ H1) as (f & Hf & -> & ->).
    destruct (IH (concat (map fst (map (fetch_one env API_KEY) gvs))) l)
      as (fs & Hfs & Ht & Hv).
    { unfold fetch_all. by rewrite Hl. }
    exists (f :: fs). split; [by constructor|]. simpl. by rewrite <- Ht, <- Hv.
Qed.

Lemma finally_catch_error s : generationError (finally_phase (catch_phase s)) = Some error_message.
Proof. reflexivity. Qed.

(** C1: a submitted prompt (not blank) whose generation succeeds went
    through exactly these calls, in this order: [generateVideos] with the
    trimmed prompt; one sleep and one [getVideosOperation] per pending
    status, up to the first done one; one [fetch] of [uri&key=API_KEY] per
    generated video.  The first download's blob, as base64, becomes the
    [data:video/mp4;base64,...] URL of one new video, put at the front of
    both the video list and the history list. *)
Theorem C1_generate_new_video_workflow fuel env API_KEY uuid now s t s' :
  trim (newVideoPrompt s) <> EmptyString ->
  handleGenerateNewVideo_run fuel env API_KEY uuid now s = Some (t, s') ->
  generationError s' = None ->
  exists op0 n opf resp gvs f0 rest,
    env_generateVideos env (generate_params (trim (newVideoPrompt s)) 1) = Ok op0 /\
    poll_status env 0 op0 n = Ok opf /\ done opf = true /\
    (forall j, j < n -> stops (poll_status env 0 op0 j) = false) /\
    response opf = Some resp /\ generatedVideos resp = Some gvs /\
    Forall2 (fetched_from env API_KEY) gvs (f0 :: rest) /\
    t = ([EGenerateVideos (generate_params (trim (newVideoPrompt s)) 1)]
         ++ poll_trace env 0 op0 n
         ++ map (fun f => EFetch (fst f)) (f0 :: rest))%list /\
    (let P := trim (newVideoPrompt s) in
     let newVideo := mkVideo uuid (data_src (bloblToBase64 env (res_blob (snd f0))))
                       (generated_title P) P in
     videos s' = newVideo :: videos s /\
     generatedVideosHistory s' = mkHistoryVideo newVideo now :: generatedVideosHistory s).
Proof.
  intros Hne Hrun Herr. unfold handleGenerateNewVideo_run, handleGenerateNewVideo_start in Hrun.
  destruct (String.eqb_spec (trim (newVideoPrompt s)) EmptyString) as [E|_]; [done|].
  set (P := trim (newVideoPrompt s)) in *.
  unfold generateVideoFromText in Hrun.
  destruct (env_generateVideos env (generate_params P 1)) as [op0|e] eqn:Hg;
    [|injection Hrun as _ <-; discriminate].
  destruct (poll_loop fuel env 0 op0) as [[[t1 n] r1]|] eqn:Hp; [|discriminate].
  destruct (poll_loop_spec _ _ _ _ _ _ _ Hp) as (k & Hn & Hs & Hlt & Hr & Ht).
  simpl in Hn. subst n t1.
  destruct r1 as [opf|e]; [|injection Hrun as _ <-; discriminate].
  destruct (response opf) as [resp|] eqn:Hresp; [|injection Hrun as _ <-; discriminate].
  destruct (generatedVideos resp) as [[|gv gvs]|] eqn:Hgv;
    try (injection Hrun as _ <-; discriminate).
  destruct (fetch_all env API_KEY (gv :: gvs)) as [t2 r2] eqn:Hf.
  destruct r2 as [vs|e]; [|injection Hrun as _ <-; discriminate].
  destruct (fetch_all_ok _ _ _ _ _ Hf) as (fetched & Hfs & -> & ->).
  destruct fetched as [|f0 rest]; [inversion Hfs|].
  injection Hrun as <- <-.
  exists op0, k, opf, resp, (gv :: gvs), f0, rest.
  rewrite <- Hr. simpl in Hs. rewrite <- Hr in Hs.
  repeat split; auto.
Qed.

(** A run of [C1_generate_new_video_workflow] on a job done after two
    polls. *)
Lemma C1_generate_new_video_workflow_witness :
  let s := setNewVideoPrompt " a cat " (initialApp []) in
  exists t s',
    handleGenerateNewVideo_run 5 (sample_env 1) (Some "K") "u1" 7 s = Some (t, s') /\
    exists op0 n opf resp gvs f0 rest,
    env_generateVideos (sample_env 1) (generate_params (trim (newVideoPrompt s)) 1) = Ok op0 /\
    poll_status (sample_env 1) 0 op0 n = Ok opf /\ done opf = true /\
    (forall j, j < n -> stops (poll_status (sample_env 1) 0 op0 j) = false) /\
    response opf = Some resp /\ generatedVideos resp = Some gvs /\
    Forall2 (fetched_from (sample_env 1) (Some "K")) gvs (f0 :: rest) /\
    t = ([EGenerateVideos (generate_params (trim (newVideoPrompt s)) 1)]
         ++ poll_trace (sample_env 1) 0 op0 n
         ++ map (fun f => EFetch (fst f)) (f0 :: rest))%list /\
    (let P := trim (newVideoPrompt s) in
     let newVideo := mkVideo "u1" (data_src (bloblToBase64 (sample_env 1) (res_blob (snd f0))))
                       (generated_title P) P in
     videos s' = newVideo :: videos s /\
     generatedVideosHistory s' = mkHistoryVideo newVideo 7 :: generatedVideosHistory s).
Proof.
  intros s. eexists. eexists. split; [vm_compute; reflexivity|].
  apply (C1_generate_new_video_workflow 5 (sample_env 1) (Some "K") "u1" 7 s);
    [vm_compute; discriminate | vm_compute; reflexivity | vm_compute; reflexivity].
Defined.

(* ------------------------------------------------------------------ *)
(** ** Claims C3 and C5: failures *)

Definition is_generate_call (ev : Event) : bool :=
  match ev with EGenerateVideos _ => true | _ => false end.

Lemma poll_trace_no_generate env i op k :
  Forall (fun ev => is_generate_call ev = false) (poll_trace env i op k).
Proof.
  unfold poll_trace. apply Forall_concat. apply List.Forall_forall.
  intros l Hl. apply in_map_iff in Hl as (j & <- & _). repeat constructor.
Qed.

Lemma fetch_all_no_generate env API_KEY gvs :
  Forall (fun ev => is_generate_call ev = false) (fst (fetch_all env API_KEY gvs)).
Proof.
  unfold fetch_all. simpl. apply Forall_concat. apply List.Forall_forall.
  intros l Hl. apply in_map_iff in Hl as ([t r] & <- & Hin).
  apply in_map_iff in Hin as (gv & Hgv & _). simpl.
  revert Hgv. unfold fetch_one.
  destruct (gv_uri gv); [|intros [= <- _]; constructor].
  destruct (env_decodeURIComponent env s); [|intros [= <- _]; constructor].
  intros [= <- _]. repeat constructor.
Qed.

(** [generateVideoFromText] calls [generateVideos] once, as its first
    call, and never again. *)
Lemma generate_single_call fuel env API_KEY prompt n t r :
  generateVideoFromText fuel env API_KEY prompt n = Some (t, r) ->
  exists rest, t = EGenerateVideos (generate_params prompt n) :: rest /\
    Forall (fun ev => is_generate_call ev = false) rest.
Proof.
  unfold generateVideoFromText.
  destruct (env_generateVideos env (generate_params prompt n)) as [op0|e].
  2: { intros [= <- _]. eexists. split; [reflexivity|constructor]. }
  destruct (poll_loop fuel env 0 op0) as [[[t1 k] r1]|] eqn:Hp; [|discriminate].
  destruct (poll_loop_spec _ _ _ _ _ _ _ Hp) as (j & _ & _ & _ & _ & ->).
  pose proof (poll_trace_no_generate env 0 op0 j) as Hpt.
  destruct r1 as [op|e]; [|intros [= <- _]; eexists; split; [reflexivity|exact Hpt]].
  destruct (response op) as [resp|];
    [|intros [= <- _]; eexists; split; [reflexivity|exact Hpt]].
  destruct (generatedVideos resp) as [[|gv gvs]|];
    try (intros [= <- _]; eexists; split; [reflexivity|exact Hpt]).
  pose proof (fetch_all_no_generate env API_KEY (gv :: gvs)) as Hf.
  destruct (fetch_all env API_KEY (gv :: gvs)) as [t' r'].
  intros [= <- _]. eexists. split; [reflexivity|]. simpl in Hf.
  apply Forall_app. done.
Qed.

(** C3: both handlers have the same catch-all.  Whatever the rejection
    (job creation, a poll, no video, a failed download: every one reaches
    the handler as a rejected [generateVideoFromText]) and also the
    handler's own "no data" error, the continuation of [handleSaveEdit] and
    of [handleGenerateNewVideo] is the same function of the state: set the
    fixed two-line message, then [isSaving := false], nothing else; and the
    generation request is made once, never retried. *)
Theorem C3_single_catch_all :
  (forall v promptText e uuid now s,
     handleSaveEdit_complete v (Err e) uuid now s = finally_phase (catch_phase s) /\
     handleGenerateNewVideo_complete promptText (Err e) uuid now s
       = finally_phase (catch_phase s)) /\
  (forall v promptText uuid now s,
     handleSaveEdit_complete v (Ok []) uuid now s = finally_phase (catch_phase s) /\
     handleGenerateNewVideo_complete promptText (Ok []) uuid now s
       = finally_phase (catch_phase s)) /\
  (forall s, finally_phase (catch_phase s)
             = setIsSaving false (setGenerationError (Some error_message) s)) /\
  error_message = ["Video generation failed.";
                   "This may be due to an invalid API key or network issues."] /\
  (forall fuel env API_KEY prompt t r,
     generateVideoFromText fuel env API_KEY prompt 1 = Some (t, r) ->
     exists rest, t = EGenerateVideos (generate_params prompt 1) :: rest /\
       Forall (fun ev => is_generate_call ev = false) rest).
Proof.
  split; [done|]. split; [done|]. split; [done|]. split; [done|].
  intros fuel env API_KEY prompt t r H. exact (generate_single_call _ _ _ _ _ _ _ H).
Qed.

(** C5 (as stated, refuted): a failed remix does not leave everything but
    the error and [isSaving] as it was: [handleSaveEdit] has closed the
    edit page ([editingVideo] is cleared). *)
Lemma C5_failed_remix_closes_editor :
  let v0 := mkVideo "m1" "https://x/m1.mp4" "Koala" "A koala on a bike" in
  let s0 := handleStartEdit v0 (initialApp [v0]) in
  editingVideo s0 = Some v0 /\
  exists t s',
    handleSaveEdit_run 1 failing_env None "u1" 0 v0 s0 = Some (t, s') /\
    editingVideo s' = None /\
    s' <> setIsSaving false (setGenerationError (Some error_message) s0).
Proof.
  intros v0 s0. split; [reflexivity|].
  eexists. eexists. split; [vm_compute; reflexivity|].
  split; [reflexivity|]. intros H. apply (f_equal editingVideo) in H.
  vm_compute in H. discriminate.
Qed.

(** C5 (amended): when [generateVideoFromText] rejects, the video list,
    the history, the view, the prompt text and the player state are as
    before; the error is the fixed message and [isSaving] is false.  The
    progress text is the handler's own, and [handleSaveEdit] has cleared
    [editingVideo]. *)
Theorem C5_failure_keeps_lists fuel env API_KEY uuid now t e (s : AppState) :
  (forall v,
     generateVideoFromText fuel env API_KEY (description v) 1 = Some (t, Err e) ->
     handleSaveEdit_run fuel env API_KEY uuid now v s =
     Some (t, mkApp (videos s) (playingVideo s) None false "Creating your remix..."
                (Some error_message) (view s) (generatedVideosHistory s)
                (newVideoPrompt s) (loadingVideoId s) (isPlaying s))) /\
  (trim (newVideoPrompt s) <> EmptyString ->
   generateVideoFromText fuel env API_KEY (trim (newVideoPrompt s)) 1 = Some (t, Err e) ->
   handleGenerateNewVideo_run fuel env API_KEY uuid now s =
   Some (t, mkApp (videos s) (playingVideo s) (editingVideo s) false
              "Generating your video..." (Some error_message) (view s)
              (generatedVideosHistory s) (newVideoPrompt s) (loadingVideoId s)
              (isPlaying s))).
Proof.
  split.
  - intros v H. unfold handleSaveEdit_run. by rewrite H.
  - intros Hne H. unfold handleGenerateNewVideo_run, handleGenerateNewVideo_start.
    destruct (String.eqb_spec (trim (newVideoPrompt s)) EmptyString) as [E|_]; [done|].
    by rewrite H.
Qed.

(* ------------------------------------------------------------------ *)
(** ** Claim C9: a blank prompt *)

(** C9: with a blank prompt (empty or only whitespace),
    [handleGenerateNewVideo] returns at once: no call is made and the state
    is unchanged, also in the page's transition system. *)
Theorem C9_blank_prompt_noop fuel env API_KEY uuid now (s : AppState) :
  trim (newVideoPrompt s) = EmptyString ->
  handleGenerateNewVideo_run fuel env API_KEY uuid now s = Some ([], s) /\
  forall w, app w = s -> dispatch GenerateNew w = w.
Proof.
  intros Hb. unfold handleGenerateNewVideo_run, handleGenerateNewVideo_start.
  rewrite Hb. simpl. split; [done|].
  intros w <-. unfold dispatch, handleGenerateNewVideo_start. by rewrite Hb.
Qed.

Lemma C9_blank_prompt_noop_witness :
  let s := setNewVideoPrompt " 	 " (initialApp []) in
  trim (newVideoPrompt s) = EmptyString /\
  handleGenerateNewVideo_run 3 (sample_env 0) None "u1" 0 s = Some ([], s) /\
  forall w, app w = s -> dispatch GenerateNew w = w.
Proof.
  intros s. split; [reflexivity|].
  apply (C9_blank_prompt_noop 3 (sample_env 0) None "u1" 0 s). reflexivity.
Defined.

(* ------------------------------------------------------------------ *)
(** ** Claim C8: the API key *)

(** Where the key goes: into the download URLs, appended verbatim. *)
Definition forward_key (API_KEY : option string) (ev : Event) : Event :=
  match ev with
  | EFetch url => EFetch (download_url API_KEY url)
  | e => e
  end.

(** Two runs whose remote side answers alike: the same responses to the
    same requests, the downloads compared up to their key. *)
Definition same_remote (env1 env2 : Env) (k1 k2 : option string) : Prop :=
  (forall p, env_generateVideos env1 p = env_generateVideos env2 p) /\
  (forall i, env_getVideosOperation env1 i = env_getVideosOperation env2 i) /\
  (forall u, env_decodeURIComponent env1 u = env_decodeURIComponent env2 u) /\
  (forall b, env_readAsDataURL env1 b = env_readAsDataURL env2 b) /\
  (forall url, env_fetch env1 (download_url k1 url) = env_fetch env2 (download_url k2 url)).

Lemma poll_loop_same fuel env1 env2 :
  (forall i, env_getVideosOperation env1 i = env_getVideosOperation env2 i) ->
  forall i op, poll_loop fuel env1 i op = poll_loop fuel env2 i op.
Proof.
  intros Hp. induction fuel as [|f IH]; intros i op; simpl; [done|].
  rewrite Hp. destruct (done op); [done|].
  destruct (env_getVideosOperation env2 i); [|done]. by rewrite IH.
Qed.

Lemma forward_key_poll_trace k env i op n :
  map (forward_key k) (poll_trace env i op n) = poll_trace env i op n.
Proof.
  unfold poll_trace. induction (seq 0 n) as [|j l IH]; simpl; [done|]. by rewrite IH.
Qed.

Lemma fetch_all_same env1 env2 k1 k2 gvs :
  same_remote env1 env2 k1 k2 ->
  exists sk, fst (fetch_all env1 k1 gvs) = map (forward_key k1) sk /\
             fst (fetch_all env2 k2 gvs) = map (forward_key k2) sk /\
             snd (fetch_all env1 k1 gvs) = snd (fetch_all env2 k2 gvs).
Proof.
  intros (Hg & Hp & Hd & Hr & Hf).
  assert (Hone : forall gv, exists sk,
            fst (fetch_one env1 k1 gv) = map (forward_key k1) sk /\
            fst (fetch_one env2 k2 gv) = map (forward_key k2) sk /\
            snd (fetch_one env1 k1 gv) = snd (fetch_one env2 k2 gv)).
  { intros gv. unfold fetch_one. destruct (gv_uri gv) as [u|]; [|exists []; done].
    rewrite Hd. destruct (env_decodeURIComponent env2 u) as [url|e]; [|exists []; done].
    exists [EFetch url]. simpl. rewrite Hf.
    destruct (env_fetch env2 (download_url k2 url)) as [res|e]; [|done].
    unfold bloblToBase64. by rewrite Hr. }
  induction gvs as [|gv gvs IH]; [exists []; done|].
  destruct IH as (sk & H1 & H2 & H3). destruct (Hone gv) as (sk1 & G1 & G2 & G3).
  exists (sk1 ++ sk)%list. unfold fetch_all in *. simpl in *.
  rewrite !map_app, <- G1, <- G2, <- H1, <- H2, G3, H3. done.
Qed.

(** C8: the key reaches the SDK client as it is, and the program itself
    never looks at it: for any two keys, against the same remote answers,
    the result is the same and the calls are the same up to the key
    appended verbatim ([url&key=...]) to each download URL; so are the
    resulting App states. *)
Theorem C8_api_key_opaque :
  (forall API_KEY, client_apiKey (ai API_KEY) = API_KEY) /\
  (forall API_KEY url, download_url API_KEY url = url ++ "&key=" ++ js_str API_KEY) /\
  (forall fuel env1 env2 k1 k2 prompt n,
     same_remote env1 env2 k1 k2 ->
     match generateVideoFromText fuel env1 k1 prompt n,
           generateVideoFromText fuel env2 k2 prompt n with
     | Some (t1, r1), Some (t2, r2) =>
         r1 = r2 /\ exists sk, t1 = map (forward_key k1) sk /\ t2 = map (forward_key k2) sk
     | None, None => True
     | _, _ => False
     end) /\
  (forall fuel env1 env2 k1 k2 uuid now s,
     same_remote env1 env2 k1 k2 ->
     match handleGenerateNewVideo_run fuel env1 k1 uuid now s,
           handleGenerateNewVideo_run fuel env2 k2 uuid now s with
     | Some (_, s1), Some (_, s2) => s1 = s2
     | None, None => True
     | _, _ => False
     end).
Proof.
  assert (G : forall fuel env1 env2 k1 k2 prompt n,
     same_remote env1 env2 k1 k2 ->
     match generateVideoFromText fuel env1 k1 prompt n,
           generateVideoFromText fuel env2 k2 prompt n with
     | Some (t1, r1), Some (t2, r2) =>
         r1 = r2 /\ exists sk, t1 = map (forward_key k1) sk /\ t2 = map (forward_key k2) sk
     | None, None => True
     | _, _ => False
     end).
  { intros fuel env1 env2 k1 k2 prompt n Hs.
    pose proof Hs as (Hg & Hp & _).
    unfold generateVideoFromText. rewrite Hg.
    set (ev0 := [EGenerateVideos (generate_params prompt n)]).
    destruct (env_generateVideos env2 (generate_params prompt n)) as [op0|e].
    2: { split; [done|]. exists ev0. done. }
    rewrite (poll_loop_same fuel env1 env2 Hp 0 op0).
    destruct (poll_loop fuel env2 0 op0) as [[[t k] r]|] eqn:Hl; [|done].
    destruct (poll_loop_spec _ _ _ _ _ _ _ Hl) as (j & _ & _ & _ & _ & ->).
    assert (Hpt : forall kk, map (forward_key kk) (ev0 ++ poll_trace env2 0 op0 j)%list
                             = (ev0 ++ poll_trace env2 0 op0 j)%list).
    { intros kk. rewrite map_app, forward_key_poll_trace. done. }
    destruct r as [op|e]; [|split; [done|]; eexists; split; symmetry; apply Hpt].
    destruct (response op) as [resp|];
      [|split; [done|]; eexists; split; symmetry; apply Hpt].
    destruct (generatedVideos resp) as [[|gv gvs]|];
      try (split; [done|]; eexists; split; symmetry; apply Hpt).
    destruct (fetch_all_same env1 env2 k1 k2 (gv :: gvs) Hs) as (sk & H1 & H2 & H3).
    destruct (fetch_all env1 k1 (gv :: gvs)) as [ta ra], (fetch_all env2 k2 (gv :: gvs)) as [tb rb].
    simpl in *. subst. split; [done|].
    exists ((ev0 ++ poll_trace env2 0 op0 j) ++ sk)%list.
    split; rewrite !map_app, forward_key_poll_trace; reflexivity. }
  split; [done|]. split; [done|]. split; [exact G|].
  intros fuel env1 env2 k1 k2 uuid now s Hs.
  unfold handleGenerateNewVideo_run.
  destruct (handleGenerateNewVideo_start s) as [[s1 p]|]; [|done].
  specialize (G fuel env1 env2 k1 k2 p 1 Hs).
  destruct (generateVideoFromText fuel env1 k1 p 1) as [[t1 r1]|],
           (generateVideoFromText fuel env2 k2 p 1) as [[t2 r2]|]; try done.
  destruct G as [-> _]. done.
Qed.

(* ------------------------------------------------------------------ *)
(** ** The page's invariant (claims C4, C6, C7) *)

(** A React value [x] used as a condition ([x && ...]) when it is an
    object or [null]. *)
Definition truthy {A : Type} (o : option A) : bool :=
  match o with Some _ => true | None => false end.

Definition world_inv (w : World) : Prop :=
  let s := app w in
  isSaving s = match inflight w with [] => false | _ :: _ => true end /\
  length (inflight w) <= 1 /\
  isPlaying s = truthy (playingVideo s) /\
  (truthy (editingVideo s) = true -> isPlaying s = false) /\
  (isSaving s = true -> editingVideo s = None).

Lemma world_inv_load MOCK_VIDEOS st : world_inv (load MOCK_VIDEOS st).
Proof. unfold world_inv. simpl. repeat split; intros; first [done | lia]. Qed.

(** Nothing is offered while the saving screen is shown. *)
Lemma saving_offers_nothing s a : isSaving s = true -> available s a = false.
Proof. intros H. unfold available, render. by rewrite H. Qed.

Lemma complete_isSaving p r uuid now s : isSaving (complete p r uuid now s) = false.
Proof. destruct p, r as [[|x l]|e]; reflexivity. Qed.

Lemma complete_editingVideo p r uuid now s :
  editingVideo (complete p r uuid now s) = editingVideo s.
Proof. destruct p, r as [[|x l]|e]; reflexivity. Qed.

Lemma complete_isPlaying p r uuid now s :
  isPlaying s = truthy (playingVideo s) ->
  isPlaying (complete p r uuid now s) = truthy (playingVideo (complete p r uuid now s)).
Proof. intros H. destruct p, r as [[|x l]|e]; simpl; auto. Qed.

Ltac inv_fields :=
  repeat match goal with
  | |- _ /\ _ => split
  | |- _ -> _ => intros
  end; simpl in *; try done; try lia; try congruence; try solve [eauto].

Lemma world_inv_step w w' : world_inv w -> step w w' -> world_inv w'.
Proof.
  intros (Hs & Hl & Hp & He & Hse) Hst. destruct Hst as [w a Hav|w before after p r uuid now Hin].
  - destruct w as [s inf st]. simpl in *.
    destruct (isSaving s) eqn:Hsv.
    { by rewrite (saving_offers_nothing s a Hsv) in Hav. }
    destruct inf as [|q inf]; [|done].
    unfold available, render in Hav. rewrite Hsv in Hav.
    destruct a; unfold dispatch, world_inv; simpl.
    + (* PlayVideo *) destruct (editingVideo s); [done|]. inv_fields.
    + (* ClosePlayer *) inv_fields.
    + (* VideoLoaded *) inv_fields.
    + (* StartEdit *) inv_fields.
    + (* PlayerDownload *) inv_fields.
    + (* PlayerShare *) inv_fields.
    + (* CancelEdit *) inv_fields.
    + (* SaveEdit *) inv_fields.
    + (* GenerateNew *) unfold handleGenerateNewVideo_start.
      destruct (String.eqb (trim (newVideoPrompt s)) EmptyString); simpl; [inv_fields|].
      destruct (editingVideo s); [done|]. inv_fields.
    + (* SetPrompt *) inv_fields.
    + (* SetViewTo *) inv_fields.
    + (* CloseError *) inv_fields.
  - destruct before as [|b before].
    2: { rewrite Hin in Hl. simpl in Hl. rewrite length_app in Hl. simpl in Hl. lia. }
    destruct after as [|c after].
    2: { rewrite Hin in Hl. simpl in Hl. lia. }
    unfold world_inv. simpl.
    rewrite complete_isSaving, complete_editingVideo.
    split; [done|]. split; [simpl; lia|]. split; [by apply complete_isPlaying|].
    split; [|done].
    intros HE. rewrite Hin in Hs. simpl in Hs.
    rewrite (Hse Hs) in HE. done.
Qed.

Lemma world_inv_reachable MOCK_VIDEOS st w :
  reachable MOCK_VIDEOS st w -> world_inv w.
Proof.
  induction 1 as [|w w' _ IH Hs]; [apply world_inv_load|].
  exact (world_inv_step w w' IH Hs).
Qed.

(** A remix in progress: play a gallery video, open it in the editor,
    save. *)
Definition demo_video : Video :=
  mkVideo "m1" "https://x/m1.mp4" "Koala" "A koala riding a motorcycle".

Definition demo_saving_world : World :=
  dispatch (SaveEdit demo_video) (dispatch (StartEdit demo_video)
    (dispatch (PlayVideo demo_video) (load [demo_video] ∅))).

Lemma demo_saving_world_reachable : reachable [demo_video] ∅ demo_saving_world.
Proof.
  unfold demo_saving_world.
  eapply reach_step; [eapply reach_step; [eapply reach_step; [apply reach_load|]|]|];
    apply step_user; vm_compute; reflexivity.
Qed.

(** ** Claim C4: one request at a time *)

(** C4: in every reachable page state at most one generation request is
    pending, and [isSaving] is true exactly while one is.  While
    [isSaving] holds only the saving screen is rendered, the Generate
    button's [disabled] expression is true, and no handler at all is
    offered, so no second request can start; the pending request's
    continuation resets [isSaving] to false whatever its outcome. *)
Theorem C4_one_request_in_flight MOCK_VIDEOS st w :
  reachable MOCK_VIDEOS st w ->
  (isSaving (app w) = true <-> inflight w <> []) /\
  length (inflight w) <= 1 /\
  (isSaving (app w) = true ->
     render (app w) = SavingProgressPage (savingMessage (app w)) /\
     generate_button_disabled (app w) = true /\
     (forall a, available (app w) a = false)) /\
  (forall before p after r uuid now,
     inflight w = (before ++ p :: after)%list ->
     isSaving (complete p r uuid now (app w)) = false).
Proof.
  intros Hr. destruct (world_inv_reachable _ _ _ Hr) as (Hs & Hl & _).
  split.
  { rewrite Hs. destruct (inflight w); done. }
  split; [exact Hl|]. split.
  - intros Hsv. split; [unfold render; by rewrite Hsv|].
    split; [unfold generate_button_disabled; rewrite Hsv; apply orb_true_r|].
    intros a. by apply saving_offers_nothing.
  - intros. apply complete_isSaving.
Qed.

Lemma C4_one_request_in_flight_witness :
  reachable [demo_video] ∅ demo_saving_world /\
  (isSaving (app demo_saving_world) = true <-> inflight demo_saving_world <> []) /\
  length (inflight demo_saving_world) <= 1 /\
  (isSaving (app demo_saving_world) = true ->
     render (app demo_saving_world) = SavingProgressPage (savingMessage (app demo_saving_world)) /\
     generate_button_disabled (app demo_saving_world) = true /\
     (forall a, available (app demo_saving_world) a = false)) /\
  (forall before p after r uuid now,
     inflight demo_saving_world = (before ++ p :: after)%list ->
     isSaving (complete p r uuid now (app demo_saving_world)) = false).
Proof.
  split; [exact demo_saving_world_reachable|].
  exact (C4_one_request_in_flight [demo_video] ∅ demo_saving_world demo_saving_world_reachable).
Defined.

(** ** Claim C6: view and modal state *)

(** C6 (as stated, refuted): right after loading, the App is in none of
    the three modal states (nothing edited, nothing playing, not saving). *)
Lemma C6_no_modal_at_load :
  reachable [] ∅ (load [] ∅) /\
  ~ (editingVideo (app (load [] ∅)) <> None \/
     (isPlaying (app (load [] ∅)) = true /\ playingVideo (app (load [] ∅)) <> None) \/
     isSaving (app (load [] ∅)) = true).
Proof.
  split; [apply reach_load|]. simpl. intros [H|[[H _]|H]]; done.
Qed.

(** C6 (amended): in every reachable state the view is [gallery] or
    [history]; [isPlaying] holds exactly when [playingVideo] is set; the
    editor and the player are never both open; nothing is being edited
    while saving.  The state with none of editing, playing or saving is
    reachable (it is the initial one). *)
Theorem C6_view_and_modal_flags MOCK_VIDEOS st w :
  reachable MOCK_VIDEOS st w ->
  (view (app w) = gallery \/ view (app w) = history) /\
  (isPlaying (app w) = true <-> playingVideo (app w) <> None) /\
  (editingVideo (app w) <> None -> isPlaying (app w) = false) /\
  (isSaving (app w) = true -> editingVideo (app w) = None).
Proof.
  intros Hr. destruct (world_inv_reachable _ _ _ Hr) as (_ & _ & Hp & He & Hse).
  split; [destruct (view (app w)); auto|].
  split.
  { rewrite Hp. destruct (playingVideo (app w)); done. }
  split; [|exact Hse].
  intros Hn. apply He. destruct (editingVideo (app w)); done.
Qed.

Lemma C6_view_and_modal_flags_witness :
  reachable [demo_video] ∅ demo_saving_world /\
  (view (app demo_saving_world) = gallery \/ view (app demo_saving_world) = history) /\
  (isPlaying (app demo_saving_world) = true <-> playingVideo (app demo_saving_world) <> None) /\
  (editingVideo (app demo_saving_world) <> None -> isPlaying (app demo_saving_world) = false) /\
  (isSaving (app demo_saving_world) = true -> editingVideo (app demo_saving_world) = None).
Proof.
  split; [exact demo_saving_world_reachable|].
  exact (C6_view_and_modal_flags [demo_video] ∅ demo_saving_world demo_saving_world_reachable).
Defined.

(** ** Claim C7: no persistent storage *)

(** C7: a page load starts with an empty history (and no pending request)
    whatever the storage holds; no step of the page changes the storage, so
    every reachable state has the storage of its load and the next load
    starts again from an empty history. *)
Theorem C7_history_only_in_memory :
  (forall MOCK_VIDEOS st,
     generatedVideosHistory (app (load MOCK_VIDEOS st)) = [] /\
     inflight (load MOCK_VIDEOS st) = []) /\
  (forall w w', step w w' -> storage w' = storage w) /\
  (forall MOCK_VIDEOS st w, reachable MOCK_VIDEOS st w ->
     storage w = st /\
     generatedVideosHistory (app (load MOCK_VIDEOS (storage w))) = []).
Proof.
  assert (Hstep : forall w w', step w w' -> storage w' = storage w).
  { intros w w' [w0 a _|w0 before after p r uuid now _]; [|done].
    destruct a; simpl; try done.
    destruct (handleGenerateNewVideo_start (app w0)) as [[s1 p]|]; done. }
  split; [done|]. split; [exact Hstep|].
  intros MOCK_VIDEOS st w Hr. split; [|done].
  induction Hr as [|w w' _ IH Hs]; [done|]. by rewrite (Hstep _ _ Hs).
Qed.

(* ------------------------------------------------------------------ *)
(** ** Claim C10: [HistoryPage] *)

(** Newest first: [a] comes before [b] in the output. *)
Definition newer_or_same (a b : HistoryVideo) : Prop := (createdAt b <= createdAt a)%Z.

Lemma insert_by_perm x l : Permutation (insert_by compareCreatedAt x l) (x :: l).
Proof.
  induction l as [|y l IH]; simpl; [done|].
  destruct (compareCreatedAt x y <? 0)%Z; [done|].
  rewrite IH. apply perm_swap.
Qed.

Lemma insert_by_sorted x l :
  Sorted newer_or_same l -> Sorted newer_or_same (insert_by compareCreatedAt x l).
Proof.
  induction 1 as [|y l Hs IH Hhd]; simpl.
  - repeat constructor.
  - unfold compareCreatedAt. destruct (createdAt y - createdAt x <? 0)%Z eqn:Hc.
    + apply Z.ltb_lt in Hc. constructor; [by constructor|].
      constructor. unfold newer_or_same. lia.
    + apply Z.ltb_ge in Hc. constructor; [exact IH|].
      destruct l as [|z l]; simpl.
      * constructor. unfold newer_or_same. lia.
      * unfold compareCreatedAt.
        destruct (createdAt z - createdAt x <? 0)%Z; constructor;
          unfold newer_or_same; [lia|]. by inversion Hhd.
Qed.

Lemma array_sort_spec l :
  Sorted newer_or_same (array_sort compareCreatedAt l) /\
  Permutation l (array_sort compareCreatedAt l).
Proof.
  unfold array_sort.
  assert (G : forall acc, Sorted newer_or_same acc ->
            Sorted newer_or_same (fold_left (fun acc x => insert_by compareCreatedAt x acc) l acc) /\
            Permutation (l ++ acc)%list
              (fold_left (fun acc x => insert_by compareCreatedAt x acc) l acc)).
  { induction l as [|x l IH]; intros acc Hacc; simpl; [done|].
    destruct (IH (insert_by compareCreatedAt x acc) (insert_by_sorted x acc Hacc))
      as [Hs Hp].
    split; [exact Hs|]. rewrite <- Hp, insert_by_perm.
    apply Permutation_middle. }
  destruct (G [] (Sorted_nil _)) as [Hs Hp]. rewrite app_nil_r in Hp. done.
Qed.

Definition history_card (loadingVideoId : option string) (video : HistoryVideo) :=
  mkHistoryCardProps (id (hv_video video)) video
    (opt_string_eqb loadingVideoId (id (hv_video video))).

(** C10: on an empty history [HistoryPage] renders the empty-state
    message; otherwise one card per video, newest [createdAt] first, the
    cards being the input's videos in some order.  The sort works on a
    fresh copy: the input array, and every array allocated before, is
    unchanged. *)
Theorem C10_history_page_sorted (h : Heap) (videos : N)
    (loadingVideoId : option string) (vs : list HistoryVideo) :
  h !! videos = Some vs ->
  exists h' r, HistoryPage h videos loadingVideoId = Some (h', r) /\
    (forall l, l ∈ dom h -> h' !! l = h !! l) /\
    (vs = [] -> r = NoVideosGeneratedYet) /\
    (vs <> [] -> exists sorted,
       r = HistoryCards (map (history_card loadingVideoId) sorted) /\
       Sorted newer_or_same sorted /\ Permutation vs sorted).
Proof.
  intros Hv. unfold HistoryPage. rewrite Hv.
  destruct (length vs =? 0)%nat eqn:Hlen.
  - apply Nat.eqb_eq, length_zero_iff_nil in Hlen. subst vs.
    exists h, NoVideosGeneratedYet. split; [done|]. split; [done|].
    split; [done|]. done.
  - cbv zeta. set (f := fresh (dom h)).
    rewrite lookup_insert_eq.
    eexists. eexists. split; [reflexivity|].
    split.
    + intros l Hl. assert (l <> f).
      { intros ->. apply (is_fresh (dom h)). exact Hl. }
      rewrite !lookup_insert_ne; done.
    + split.
      * intros ->. done.
      * intros _. exists (array_sort compareCreatedAt vs).
        split; [reflexivity|]. apply array_sort_spec.
Qed.

Lemma C10_history_page_sorted_witness :
  let a := mkHistoryVideo (mkVideo "a" "ua" "A" "da") 1 in
  let b := mkHistoryVideo (mkVideo "b" "ub" "B" "db") 3 in
  (<[0%N := [a; b]]> (∅ : Heap)) !! 0%N = Some [a; b] /\
  exists h' r, HistoryPage (<[0%N := [a; b]]> ∅) 0%N None = Some (h', r) /\
    (forall l, l ∈ dom (<[0%N := [a; b]]> (∅ : Heap)) ->
               h' !! l = (<[0%N := [a; b]]> (∅ : Heap)) !! l) /\
    ([a; b] = [] -> r = NoVideosGeneratedYet) /\
    ([a; b] <> [] -> exists sorted,
       r = HistoryCards (map (history_card None) sorted) /\
       Sorted newer_or_same sorted /\ Permutation [a; b] sorted).
Proof.
  intros a b. split; [reflexivity|].
  apply (C10_history_page_sorted (<[0%N := [a; b]]> ∅) 0%N None [a; b]).
  reflexivity.
Defined.

(* ================================================================== *)
(** * Further parts of the code *)

(* ------------------------------------------------------------------ *)
(** ** [VideoPlayer] ([src/components/VideoPlayer.tsx]):
    [handleDownload] and the URL [handleShare] shares *)

(** [\w] (without the [u] flag): [A-Za-z0-9_]. *)
Definition is_word_char (c : ascii) : bool :=
  let n := nat_of_ascii c in
  ((97 <=? n) && (n <=? 122))%nat || ((65 <=? n) && (n <=? 90))%nat
  || ((48 <=? n) && (n <=? 57))%nat || (n =? 95)%nat.

(** [.replace(/[^\w\s]/gi, '')]: [\s] is [js_is_space] below 256. *)
Fixpoint strip_non_word_space (s : string) : string :=
  match s with
  | EmptyString => EmptyString
  | String c s' =>
      if is_word_char c || js_is_space c then String c (strip_non_word_space s')
      else strip_non_word_space s'
  end.

(** [.replace(/ /g, '_')] *)
Fixpoint spaces_to_underscores (s : string) : string :=
  match s with
  | EmptyString => EmptyString
  | String c s' =>
      String (if Ascii.eqb c " " then "_"%char else c) (spaces_to_underscores s')
  end.

(** The [<a>] element [handleDownload] creates and clicks. *)
Record DownloadLink := mkDownloadLink { link_href : string; link_download : string }.

Definition handleDownload (video : Video) : DownloadLink :=
  mkDownloadLink (videoUrl video)
    (spaces_to_underscores (strip_non_word_space (title video)) ++ ".mp4").

(** [video.videoUrl.startsWith('http') ? video.videoUrl : window.location.href]
    (the same in [HistoryCard]). *)
Definition urlToShare (video : Video) (location_href : string) : string :=
  if String.prefix "http" (videoUrl video) then videoUrl video else location_href.

Example download_remix_title :
  link_download (handleDownload (mkVideo "u" "data:x" ("Remix of " ++ dq ++ "Koala: 2/3" ++ dq) "d"))
  = "Remix_of_Koala_23.mp4".
Proof. reflexivity. Qed.




(** A generated video's URL is a [data:] URL, so sharing it shares the
    page's address instead; an [http...] URL is shared as it is. *)
Theorem urlToShare_generated (videoSrc : option string) uuid t d location_href :
  urlToShare (mkVideo uuid (data_src videoSrc) t d) location_href = location_href /\
  forall video, String.prefix "http" (videoUrl video) = true ->
    urlToShare video location_href = videoUrl video.
Proof.
  split; [reflexivity|]. intros video H. unfold urlToShare. by rewrite H.
Qed.

(* ------------------------------------------------------------------ *)
(** ** The prompt: [newVideoPrompt.trim()] *)

Fixpoint dropw (l : list ascii) : list ascii :=
  match l with
  | [] => []
  | c :: l' => if js_is_space c then dropw l' else l
  end.

Lemma trim_left_eq s : list_ascii_of_string (trim_left s) = dropw (list_ascii_of_string s).
Proof. induction s as [|c s IH]; simpl; [done|]. by destruct (js_is_space c). Qed.

Lemma trim_eq s :
  list_ascii_of_string (trim s) =
  rev (dropw (rev (dropw (list_ascii_of_string s)))).
Proof.
  unfold trim, string_rev.
  rewrite list_ascii_of_string_of_list_ascii, trim_left_eq,
    list_ascii_of_string_of_list_ascii, trim_left_eq.
  done.
Qed.

Lemma dropw_head l c : head (dropw l) = Some c -> js_is_space c = false.
Proof.
  induction l as [|d l IH]; simpl; [done|].
  destruct (js_is_space d) eqn:Hd; [exact IH|]. by intros [= <-].
Qed.

Lemma dropw_snoc x c : js_is_space c = false -> exists y, dropw (x ++ [c])%list = (y ++ [c])%list.
Proof.
  intros Hc. induction x as [|d x IH]; simpl.
  - rewrite Hc. by exists [].
  - destruct (js_is_space d); [exact IH|]. by exists (d :: x).
Qed.

Lemma dropw_id l : (forall c, head l = Some c -> js_is_space c = false) -> dropw l = l.
Proof. destruct l as [|c l]; simpl; [done|]. intros H. by rewrite (H c eq_refl). Qed.

Lemma last_rev (l : list ascii) : last (rev l) = head l.
Proof. destruct l as [|c l]; simpl; [done|]. apply last_snoc. Qed.

Lemma string_rev_eq s : list_ascii_of_string (string_rev s) = rev (list_ascii_of_string s).
Proof. unfold string_rev. apply list_ascii_of_string_of_list_ascii. Qed.

(** The prompt [handleGenerateNewVideo] sends starts and ends with a
    character that is not whitespace, and trimming it again changes
    nothing. *)
Theorem trim_no_outer_space (s : string) :
  (forall c, head (list_ascii_of_string (trim s)) = Some c -> js_is_space c = false) /\
  (forall c, last (list_ascii_of_string (trim s)) = Some c -> js_is_space c = false) /\
  trim (trim s) = trim s.
Proof.
  assert (Houter : (forall c, head (list_ascii_of_string (trim s)) = Some c -> js_is_space c = false) /\
    (forall c, last (list_ascii_of_string (trim s)) = Some c -> js_is_space c = false)).
  { rewrite trim_eq.
    destruct (dropw (list_ascii_of_string s)) as [|c u] eqn:Hu; [done|].
    assert (Hc : js_is_space c = false).
    { apply (dropw_head (list_ascii_of_string s)). by rewrite Hu. }
    simpl. destruct (dropw_snoc (rev u) c Hc) as [y Hy]. rewrite Hy.
    rewrite rev_app_distr. simpl. split.
    - by intros c' [= <-].
    - intros c'. rewrite <- rev_unit, last_rev, <- Hy.
      apply dropw_head. }
  split; [apply Houter|]. split; [apply Houter|].
  destruct Houter as [Hh Hl].
  assert (E : list_ascii_of_string (trim (trim s)) = list_ascii_of_string (trim s)).
  { rewrite (trim_eq (trim s)).
    rewrite (dropw_id (list_ascii_of_string (trim s)) Hh).
    rewrite dropw_id; [apply rev_involutive|].
    intros c. rewrite <- last_rev, rev_involutive. apply Hl. }
  rewrite <- (string_of_list_ascii_of_string (trim (trim s))), E.
  apply string_of_list_ascii_of_string.
Qed.

(* ------------------------------------------------------------------ *)
(** ** The title of a generated video *)





(* ------------------------------------------------------------------ *)
(** ** [bloblToBase64] and the [data:] URL *)

Lemma split_on_nosep sep a :
  ~ In sep (list_ascii_of_string a) -> split_on sep a = [a].
Proof.
  induction a as [|c a IH]; simpl; [done|]. intros Hn.
  rewrite IH by tauto. destruct (Ascii.eqb_spec c sep); [tauto|done].
Qed.

Lemma split_on_app sep a b :
  ~ In sep (list_ascii_of_string a) ->
  split_on sep (a ++ String sep b) = a :: split_on sep b.
Proof.
  induction a as [|c a IH]; simpl; intros Hn.
  - by rewrite Ascii.eqb_refl.
  - rewrite IH by tauto. destruct (Ascii.eqb_spec c sep); [tauto|done].
Qed.

(** When the reader's result is [header,payload] with no comma in either
    part, the new video's URL is [data:video/mp4;base64,payload] (the
    reader's own URL when [header] is [data:video/mp4;base64]); with no
    comma at all it is [data:video/mp4;base64,undefined]. *)
Theorem bloblToBase64_data_url (env : Env) (blob : string) :
  (forall header payload,
     ~ In ","%char (list_ascii_of_string header) ->
     ~ In ","%char (list_ascii_of_string payload) ->
     env_readAsDataURL env blob = header ++ String "," payload ->
     data_src (bloblToBase64 env blob) = "data:video/mp4;base64," ++ payload) /\
  (~ In ","%char (list_ascii_of_string (env_readAsDataURL env blob)) ->
   data_src (bloblToBase64 env blob) = "data:video/mp4;base64,undefined").
Proof.
  unfold bloblToBase64. split.
  - intros header payload Hh Hp Hr. rewrite Hr, split_on_app, split_on_nosep by done.
    done.
  - intros Hn. by rewrite split_on_nosep.
Qed.

(* ------------------------------------------------------------------ *)
(** ** The success paths of the two handlers *)

(** A remix that succeeds: its prompt is the original description, as it
    is (no trim, no blank check); the new video [Remix of "title"] keeps
    that description, goes to the front of the video list and of the
    history (same record, stamped [now]), the view switches to the history
    and the player opens on it; the editor is closed, no error is shown and
    [isSaving] is false. *)
Theorem handleSaveEdit_success fuel env API_KEY uuid now (v : Video) s t videoSrc rest :
  generateVideoFromText fuel env API_KEY (description v) 1 = Some (t, Ok (videoSrc :: rest)) ->
  exists t0,
  t = EGenerateVideos (generate_params (description v) 1) :: t0 /\
  let newVideo := mkVideo uuid (data_src videoSrc)
                    ("Remix of " ++ dq ++ title v ++ dq) (description v) in
  handleSaveEdit_run fuel env API_KEY uuid now v s =
  Some (t, mkApp (newVideo :: videos s) (Some newVideo) None false
             "Creating your remix..." None history
             (mkHistoryVideo newVideo now :: generatedVideosHistory s)
             (newVideoPrompt s) (loadingVideoId s) true).
Proof.
  intros H. destruct (generate_single_call _ _ _ _ _ _ _ H) as (t0 & -> & _).
  exists t0. split; [done|]. unfold handleSaveEdit_run. by rewrite H.
Qed.

Lemma handleSaveEdit_success_witness :
  generateVideoFromText 3 (sample_env 0) None (description demo_video) 1
    = Some ([EGenerateVideos (generate_params (description demo_video) 1);
             ESleep 10000; EGetVideosOperation op_pending;
             EFetch "https://v/1?alt=media&key=undefined"], Ok [Some "BLOB"]) /\
  exists t0,
  [EGenerateVideos (generate_params (description demo_video) 1);
   ESleep 10000; EGetVideosOperation op_pending;
   EFetch "https://v/1?alt=media&key=undefined"]
    = EGenerateVideos (generate_params (description demo_video) 1) :: t0 /\
  let newVideo := mkVideo "u1" (data_src (Some "BLOB"))
                    ("Remix of " ++ dq ++ title demo_video ++ dq) (description demo_video) in
  handleSaveEdit_run 3 (sample_env 0) None "u1" 5 demo_video (initialApp []) =
  Some ([EGenerateVideos (generate_params (description demo_video) 1);
         ESleep 10000; EGetVideosOperation op_pending;
         EFetch "https://v/1?alt=media&key=undefined"],
        mkApp (newVideo :: videos (initialApp [])) (Some newVideo) None false
             "Creating your remix..." None history
             (mkHistoryVideo newVideo 5 :: generatedVideosHistory (initialApp []))
             (newVideoPrompt (initialApp [])) (loadingVideoId (initialApp [])) true).
Proof.
  split; [vm_compute; reflexivity|].
  apply (handleSaveEdit_success 3 (sample_env 0) None "u1" 5 demo_video (initialApp [])
           _ (Some "BLOB") []).
  vm_compute. reflexivity.
Defined.

(** A new video that succeeds: besides the lists (claim C1), the prompt
    box is emptied, the view switches to the history, the player opens
    on the new video, no error is shown and [isSaving] is false. *)
Theorem handleGenerateNewVideo_success fuel env API_KEY uuid now s t videoSrc rest :
  trim (newVideoPrompt s) <> EmptyString ->
  generateVideoFromText fuel env API_KEY (trim (newVideoPrompt s)) 1
    = Some (t, Ok (videoSrc :: rest)) ->
  let P := trim (newVideoPrompt s) in
  let newVideo := mkVideo uuid (data_src videoSrc) (generated_title P) P in
  handleGenerateNewVideo_run fuel env API_KEY uuid now s =
  Some (t, mkApp (newVideo :: videos s) (Some newVideo) (editingVideo s) false
             "Generating your video..." None history
             (mkHistoryVideo newVideo now :: generatedVideosHistory s)
             EmptyString (loadingVideoId s) true).
Proof.
  intros Hne H P newVideo. unfold handleGenerateNewVideo_run, handleGenerateNewVideo_start.
  destruct (String.eqb_spec (trim (newVideoPrompt s)) EmptyString) as [E|_]; [done|].
  by rewrite H.
Qed.

Lemma handleGenerateNewVideo_success_witness :
  let s := setNewVideoPrompt " a cat " (initialApp []) in
  let P := trim (newVideoPrompt s) in
  let newVideo := mkVideo "u1" (data_src (Some "BLOB")) (generated_title P) P in
  handleGenerateNewVideo_run 3 (sample_env 0) None "u1" 5 s =
  Some ([EGenerateVideos (generate_params "a cat" 1);
         ESleep 10000; EGetVideosOperation op_pending;
         EFetch "https://v/1?alt=media&key=undefined"],
        mkApp (newVideo :: videos s) (Some newVideo) (editingVideo s) false
             "Generating your video..." None history
             (mkHistoryVideo newVideo 5 :: generatedVideosHistory s)
             EmptyString (loadingVideoId s) true).
Proof.
  intros s P newVideo.
  apply (handleGenerateNewVideo_success 3 (sample_env 0) None "u1" 5 s _ (Some "BLOB") []).
  - vm_compute. discriminate.
  - vm_compute. reflexivity.
Defined.

(* ------------------------------------------------------------------ *)
(** ** [HistoryPage]: the order of ties and the loading card *)

Lemma insert_by_last x acc :
  Forall (fun y => (createdAt x <= createdAt y)%Z) acc ->
  insert_by compareCreatedAt x acc = (acc ++ [x])%list.
Proof.
  induction 1 as [|y acc Hy _ IH]; simpl; [done|].
  unfold compareCreatedAt. destruct (createdAt y - createdAt x <? 0)%Z eqn:Hc.
  - apply Z.ltb_lt in Hc. lia.
  - f_equal. exact IH.
Qed.

Lemma array_sort_fold_sorted l : forall acc,
  StronglySorted newer_or_same l ->
  (forall y x, In y acc -> In x l -> (createdAt x <= createdAt y)%Z) ->
  fold_left (fun acc x => insert_by compareCreatedAt x acc) l acc = (acc ++ l)%list.
Proof.
  induction l as [|x l IH]; intros acc Hs Hle; cbn [fold_left]; [by rewrite app_nil_r|].
  inversion Hs as [|? ? Hs' Hx]; subst.
  rewrite insert_by_last.
  - rewrite IH; [by rewrite <- app_assoc|done|].
    intros y z Hy Hz. apply in_app_or in Hy as [Hy|[<-|[]]].
    + apply Hle; [done|by right].
    + rewrite List.Forall_forall in Hx. apply (Hx z Hz).
  - apply List.Forall_forall. intros y Hy. apply Hle; [done|by left].
Qed.

(** The sort of [HistoryPage] is stable: a history that is already
    newest-first is shown in its own order, videos with the same
    [createdAt] included (an unstable sort could swap those). *)
Theorem HistoryPage_keeps_sorted_order (h : Heap) (videos : N)
    (loadingVideoId : option string) (vs : list HistoryVideo) :
  h !! videos = Some vs -> vs <> [] -> Sorted newer_or_same vs ->
  exists h', HistoryPage h videos loadingVideoId =
    Some (h', HistoryCards (map (history_card loadingVideoId) vs)).
Proof.
  intros Hv Hne Hs. unfold HistoryPage. rewrite Hv.
  destruct (length vs =? 0)%nat eqn:Hlen.
  { apply Nat.eqb_eq, length_zero_iff_nil in Hlen. done. }
  cbv zeta. rewrite lookup_insert_eq. eexists. do 2 f_equal.
  unfold array_sort. rewrite array_sort_fold_sorted; [done| |done].
  apply Sorted_StronglySorted; [|done].
  unfold newer_or_same. intros a b c; lia.
Qed.

Lemma HistoryPage_keeps_sorted_order_witness :
  let a := mkHistoryVideo (mkVideo "a" "ua" "A" "da") 3 in
  let b := mkHistoryVideo (mkVideo "b" "ub" "B" "db") 2 in
  let c := mkHistoryVideo (mkVideo "c" "uc" "C" "dc") 2 in
  (<[0%N := [a; b; c]]> ∅ : Heap) !! 0%N = Some [a; b; c] /\ [a; b; c] <> [] /\
  Sorted newer_or_same [a; b; c] /\
  exists h', HistoryPage (<[0%N := [a; b; c]]> ∅) 0%N (Some "c") =
    Some (h', HistoryCards (map (history_card (Some "c")) [a; b; c])).
Proof.
  intros a b c.
  assert (Hs : Sorted newer_or_same [a; b; c]).
  { repeat constructor; unfold newer_or_same; simpl; lia. }
  split; [reflexivity|]. split; [discriminate|]. split; [exact Hs|].
  apply (HistoryPage_keeps_sorted_order _ 0%N (Some "c") [a; b; c]);
    [reflexivity|discriminate|exact Hs].
Defined.

Lemma loading_cards_at_most_one k (l : list HistoryVideo) :
  NoDup (map (fun v => id (hv_video v)) l) ->
  (length (List.filter card_isLoading (map (history_card k) l)) <= 1)%nat.
Proof.
  induction l as [|x l IH]; intros Hnd; simpl; [lia|].
  inversion Hnd as [|? ? Hx Hnd']; subst.
  destruct (opt_string_eqb k (id (hv_video x))) eqn:E; simpl; [|by apply IH].
  destruct k as [k|]; [|done]. apply String.eqb_eq in E. subst k.
  enough (List.filter card_isLoading (map (history_card (Some (id (hv_video x)))) l) = [])
    as -> by (simpl; lia).
  clear IH Hnd Hnd'. induction l as [|y l IH]; simpl; [done|].
  unfold history_card at 1; simpl.
  destruct (String.eqb (id (hv_video x)) (id (hv_video y))) eqn:E'.
  - apply String.eqb_eq in E'. exfalso. apply Hx. simpl. rewrite E'.
    apply list_elem_of_here.
  - apply IH. intros Hin. apply Hx. simpl. by apply list_elem_of_further.
Qed.

(** When the history's ids are distinct, at most one card shows the
    loading state, and a card shows it only when [loadingVideoId] is its
    own key: with [loadingVideoId = null] no card does. *)
Theorem HistoryPage_loading_card (h : Heap) (videos : N)
    (loadingVideoId : option string) (vs : list HistoryVideo) h' cards :
  h !! videos = Some vs ->
  NoDup (map (fun v => id (hv_video v)) vs) ->
  HistoryPage h videos loadingVideoId = Some (h', HistoryCards cards) ->
  (length (List.filter card_isLoading cards) <= 1)%nat /\
  Forall (fun c => card_isLoading c = true -> loadingVideoId = Some (card_key c)) cards.
Proof.
  intros Hv Hnd Hr. unfold HistoryPage in Hr. rewrite Hv in Hr.
  destruct (length vs =? 0)%nat; [done|].
  cbv zeta in Hr. rewrite lookup_insert_eq in Hr. injection Hr as _ <-.
  destruct (array_sort_spec vs) as [_ Hp].
  split.
  - apply loading_cards_at_most_one.
    rewrite <- (Permutation_map (fun v => id (hv_video v)) Hp). exact Hnd.
  - apply List.Forall_forall. intros c Hc. apply in_map_iff in Hc as (v & <- & _).
    simpl. unfold opt_string_eqb. destruct loadingVideoId as [k|]; [|done].
    intros E. apply String.eqb_eq in E. by subst.
Qed.

Lemma HistoryPage_loading_card_witness :
  let a := mkHistoryVideo (mkVideo "a" "ua" "A" "da") 1 in
  let b := mkHistoryVideo (mkVideo "b" "ub" "B" "db") 3 in
  let h : Heap := <[0%N := [a; b]]> ∅ in
  h !! 0%N = Some [a; b] /\
  NoDup (map (fun v => id (hv_video v)) [a; b]) /\
  HistoryPage h 0%N (Some "a") =
    Some (<[1%N := [b; a]]> (<[1%N := [a; b]]> h),
          HistoryCards [history_card (Some "a") b; history_card (Some "a") a]) /\
  (length (List.filter card_isLoading
     [history_card (Some "a") b; history_card (Some "a") a]) <= 1)%nat /\
  Forall (fun c => card_isLoading c = true -> Some "a" = Some (card_key c))
     [history_card (Some "a") b; history_card (Some "a") a].
Proof.
  intros a b h.
  assert (Hnd : NoDup (map (fun v => id (hv_video v)) [a; b])).
  { apply (bool_decide_unpack _). vm_compute. reflexivity. }
  assert (Hr : HistoryPage h 0%N (Some "a") =
    Some (<[1%N := [b; a]]> (<[1%N := [a; b]]> h),
          HistoryCards [history_card (Some "a") b; history_card (Some "a") a])).
  { vm_compute. reflexivity. }
  split; [reflexivity|]. split; [exact Hnd|]. split; [exact Hr|].
  exact (HistoryPage_loading_card h 0%N (Some "a") [a; b] _ _ eq_refl Hnd Hr).
Defined.

(* ------------------------------------------------------------------ *)
(** ** Two more invariants of the page *)

Lemma complete_lists p r uuid now s :
  (exists v, videos (complete p r uuid now s) = v :: videos s /\
     generatedVideosHistory (complete p r uuid now s)
       = mkHistoryVideo v now :: generatedVideosHistory s) \/
  (videos (complete p r uuid now s) = videos s /\
     generatedVideosHistory (complete p r uuid now s) = generatedVideosHistory s).
Proof. destruct p, r as [[|x l]|e]; simpl; eauto. Qed.

(** Whatever the user does and however the requests settle, the gallery
    list is the generated videos, newest first, followed by the initial
    [MOCK_VIDEOS]: the generated ones are exactly the history's videos in
    the history's order, and no video is ever removed or reordered. *)
Theorem reachable_videos_layout MOCK_VIDEOS st w :
  reachable MOCK_VIDEOS st w ->
  videos (app w) = (map hv_video (generatedVideosHistory (app w)) ++ MOCK_VIDEOS)%list.
Proof.
  induction 1 as [|w w' _ IH Hs]; [done|].
  destruct Hs as [w a _|w before after p r uuid now _].
  - destruct w as [s inf st']. simpl in *.
    destruct a; simpl; try exact IH.
    unfold handleGenerateNewVideo_start.
    destruct (String.eqb (trim (newVideoPrompt s)) EmptyString); exact IH.
  - simpl. destruct (complete_lists p r uuid now (app w)) as [(v & -> & ->)|(-> & ->)];
      [simpl; by rewrite IH|exact IH].
Qed.

Definition demo_done_world : World :=
  mkWorld (complete (PSaveEdit demo_video) (Ok [Some "BLOB"]) "u1" 5 (app demo_saving_world))
    [] (storage demo_saving_world).

Lemma demo_done_world_reachable : reachable [demo_video] ∅ demo_done_world.
Proof.
  eapply reach_step; [exact demo_saving_world_reachable|].
  exact (step_settle demo_saving_world [] [] (PSaveEdit demo_video)
           (Ok [Some "BLOB"]) "u1" 5 eq_refl).
Qed.

Lemma reachable_videos_layout_witness :
  reachable [demo_video] ∅ demo_done_world /\
  videos (app demo_done_world)
    = (map hv_video (generatedVideosHistory (app demo_done_world)) ++ [demo_video])%list.
Proof.
  split; [exact demo_done_world_reachable|].
  exact (reachable_videos_layout [demo_video] ∅ demo_done_world demo_done_world_reachable).
Defined.







(* ------------------------------------------------------------------ *)
(** ** [Promise.all] over the downloads *)

(** One failed download fails the whole [generateVideoFromText]: when the
    videos before it downloaded and its own callback rejects, the
    combined result is a rejection whatever the later ones do (the videos
    already downloaded are dropped), and it is that video's error when the
    later ones succeed. *)
Theorem fetch_all_first_failure env API_KEY pre gv post oks e :
  Forall2 (fun g a => snd (fetch_one env API_KEY g) = Ok a) pre oks ->
  snd (fetch_one env API_KEY gv) = Err e ->
  (exists e', snd (fetch_all env API_KEY (pre ++ gv :: post)%list) = Err e') /\
  (Forall (fun g => exists a, snd (fetch_one env API_KEY g) = Ok a) post ->
   snd (fetch_all env API_KEY (pre ++ gv :: post)%list) = Err e).
Proof.
  intros Hpre Hgv.
  assert (G : snd (fetch_all env API_KEY (pre ++ gv :: post)%list) = Err e).
  { unfold fetch_all. simpl. rewrite !map_map.
    induction Hpre as [|g a pre oks Hg _ IH]; simpl.
    - by rewrite Hgv.
    - rewrite Hg, IH. done. }
  split; [by exists e|by intros _].
Qed.

Definition flaky_env : Env :=
  mkEnv (fun _ => Ok op_pending) (fun _ => Ok op_pending) (fun u => Ok u)
        (fun u => if String.eqb u "https://v/2&key=K"
                  then Ok (mkFetchResponse false 404 "Not Found" EmptyString)
                  else Ok (mkFetchResponse true 200 "OK" "BLOB"))
        (fun b => "data:video/mp4;base64," ++ b).

Lemma fetch_all_first_failure_witness :
  Forall2 (fun g a => snd (fetch_one flaky_env (Some "K") g) = Ok a)
    [mkGeneratedVideo (Some "https://v/1")] [Some "BLOB"] /\
  snd (fetch_one flaky_env (Some "K") (mkGeneratedVideo (Some "https://v/2")))
    = Err "Failed to fetch video: 404 Not Found" /\
  (exists e', snd (fetch_all flaky_env (Some "K")
         [mkGeneratedVideo (Some "https://v/1"); mkGeneratedVideo (Some "https://v/2");
          mkGeneratedVideo (Some "https://v/3")]) = Err e') /\
  (Forall (fun g => exists a, snd (fetch_one flaky_env (Some "K") g) = Ok a)
     [mkGeneratedVideo (Some "https://v/3")] ->
   snd (fetch_all flaky_env (Some "K")
         [mkGeneratedVideo (Some "https://v/1"); mkGeneratedVideo (Some "https://v/2");
          mkGeneratedVideo (Some "https://v/3")])
    = Err "Failed to fetch video: 404 Not Found").
Proof.
  assert (H1 : Forall2 (fun g a => snd (fetch_one flaky_env (Some "K") g) = Ok a)
    [mkGeneratedVideo (Some "https://v/1")] [Some "BLOB"]).
  { constructor; [vm_compute; reflexivity|constructor]. }
  assert (H2 : snd (fetch_one flaky_env (Some "K") (mkGeneratedVideo (Some "https://v/2")))
    = Err "Failed to fetch video: 404 Not Found") by (vm_compute; reflexivity).
  split; [exact H1|]. split; [exact H2|].
  exact (fetch_all_first_failure flaky_env (Some "K") [mkGeneratedVideo (Some "https://v/1")]
           (mkGeneratedVideo (Some "https://v/2")) [mkGeneratedVideo (Some "https://v/3")]
           [Some "BLOB"] _ H1 H2).
Defined.
